(** * JobTracker: record store, query engine, analytics, undo and CSV

    A shallow embedding of [script.js].  The application keeps one mutable
    [AppState] object and talks to three pieces of the browser: [localStorage],
    the timer queue and the [Date]/[Math.random] built-ins.  Those are made
    explicit in a [World] value that every operation takes and returns.

    - Strings are sequences of code units below 256 ([string] of the
      Standard Library); times are integers counting milliseconds since
      the epoch, and a number that may be NaN is an [option Z].
    - A write to [localStorage] goes through or throws; which one is up to
      the storage ([accepts]).
    - [Math.random] is the sequence of numerators [entropy]; the clock
      shows [now]; the local time zone is a pair of offset functions.
    - Rendering, dialogs and toasts change the page only and are left out;
      the one timer that touches [AppState] is kept.

    The first part defines the built-ins the script relies on ([Js]) and
    the script itself, function by function; the second part states and
    proves what the specification says about it. *)

From Stdlib Require Import List String Ascii ZArith NArith Arith Bool Lia.
From Stdlib Require Import Permutation Sorted.
Import ListNotations.

Open Scope string_scope.
Open Scope list_scope.

(* ================================================================== *)
(** ** Built-ins of the host language used by the script *)
(* ================================================================== *)

Module Js.

(** *** Characters and strings *)

Definition code (c : ascii) : N := N_of_ascii c.

Definition chr (n : N) : ascii := ascii_of_N n.

Definition quote : ascii := chr 34.
Definition comma : ascii := chr 44.
Definition newline : ascii := chr 10.

(** Line terminators: the characters [.] does not match. *)
Definition isLineTerminator (c : ascii) : bool :=
  ((code c =? 10) || (code c =? 13))%N.

(** White space as [\s] and [trim] see it (code units below 256). *)
Definition isWhiteSpace (c : ascii) : bool :=
  (((9 <=? code c) && (code c <=? 13)) || (code c =? 32) || (code c =? 160))%N.

Definition toLowerChar (c : ascii) : ascii :=
  let n := code c in
  if (((65 <=? n) && (n <=? 90))
      || ((192 <=? n) && (n <=? 222) && negb (n =? 215)))%N
  then chr (n + 32) else c.

Fixpoint toLowerCase (s : string) : string :=
  match s with
  | EmptyString => EmptyString
  | String c s' => String (toLowerChar c) (toLowerCase s')
  end.

Fixpoint startsWith (s p : string) : bool :=
  match p, s with
  | EmptyString, _ => true
  | String _ _, EmptyString => false
  | String a p', String b s' => Ascii.eqb a b && startsWith s' p'
  end.

Fixpoint includes (s sub : string) : bool :=
  startsWith s sub
  || match s with
     | EmptyString => false
     | String _ s' => includes s' sub
     end.

Fixpoint trimStart (s : string) : string :=
  match s with
  | EmptyString => EmptyString
  | String c s' => if isWhiteSpace c then trimStart s' else s
  end.

Fixpoint trimEnd (s : string) : string :=
  match s with
  | EmptyString => EmptyString
  | String c s' =>
      match trimEnd s' with
      | EmptyString => if isWhiteSpace c then EmptyString else String c EmptyString
      | r => String c r
      end
  end.

Definition trim (s : string) : string := trimEnd (trimStart s).

(** [s.split(sep)] for a one-character separator. *)
Fixpoint split (sep : ascii) (s : string) : list string :=
  match s with
  | EmptyString => [EmptyString]
  | String c s' =>
      if Ascii.eqb c sep then EmptyString :: split sep s'
      else match split sep s' with
           | h :: t => String c h :: t
           | [] => [String c EmptyString]
           end
  end.

(** [a.join(sep)] *)
Fixpoint join (sep : string) (l : list string) : string :=
  match l with
  | [] => EmptyString
  | [x] => x
  | x :: rest => x ++ sep ++ join sep rest
  end.

(** Truthiness of a string: the empty string is the only falsy one. *)
Definition truthy (s : string) : bool :=
  match s with EmptyString => false | _ => true end.

(** *** Arrays *)

Section Arrays.
Context {A : Type}.

(** [a.findIndex(p)], with [None] for the [-1] of the host language. *)
Fixpoint findIndex (p : A -> bool) (l : list A) : option nat :=
  match l with
  | [] => None
  | x :: l' => if p x then Some 0 else option_map S (findIndex p l')
  end.

(** [a.find(p)] *)
Fixpoint find (p : A -> bool) (l : list A) : option A :=
  match l with
  | [] => None
  | x :: l' => if p x then Some x else find p l'
  end.

(** [a.splice(i, 1)]: the removed elements and the array left. *)
Definition splice_out (i : nat) (l : list A) : list A * list A :=
  (firstn 1 (skipn i l), firstn i l ++ skipn (S i) l).

(** [a.splice(i, 0, x)] *)
Definition splice_in (i : nat) (x : A) (l : list A) : list A :=
  firstn i l ++ x :: skipn i l.

(** [a.unshift(x)] *)
Definition unshift (x : A) (l : list A) : list A := x :: l.

(** [a.sort(cmp)]: the sort of the host language is stable; a number
    that is not a number coming out of [cmp] counts as zero.  Insertion
    from the right keeps an element in front of the later elements it
    compares equal to.  Where [cmp] is a consistent comparison this is
    the list every stable sort gives; where it is not, the order the host
    gives depends on its algorithm. *)
Fixpoint sort_insert (cmp : A -> A -> Z) (x : A) (l : list A) : list A :=
  match l with
  | [] => [x]
  | y :: l' => if (cmp x y <=? 0)%Z then x :: y :: l'
               else y :: sort_insert cmp x l'
  end.

Fixpoint sort (cmp : A -> A -> Z) (l : list A) : list A :=
  match l with
  | [] => []
  | x :: l' => sort_insert cmp x (sort cmp l')
  end.
End Arrays.

(** *** Numbers that may be NaN *)

Definition number := option Z.

Definition sub (a b : number) : number :=
  match a, b with
  | Some x, Some y => Some (x - y)%Z
  | _, _ => None
  end.

(** [a >= b]: false as soon as one side is NaN. *)
Definition geq (a b : number) : bool :=
  match a, b with
  | Some x, Some y => (y <=? x)%Z
  | _, _ => false
  end.

Definition nanToZero (v : number) : Z :=
  match v with Some z => z | None => 0%Z end.

(** *** Dates *)

Local Open Scope Z_scope.

Definition msPerDay : Z := 86400000.

Definition Day (t : Z) : Z := t / msPerDay.
Definition TimeWithinDay (t : Z) : Z := t mod msPerDay.

(** Day number (days since 1970-01-01) of a proleptic Gregorian date. *)
Definition daysFromCivil (y m d : Z) : Z :=
  let y' := if m <=? 2 then y - 1 else y in
  let era := y' / 400 in
  let yoe := y' - era * 400 in
  let mp := if 2 <? m then m - 3 else m + 9 in
  let doy := (153 * mp + 2) / 5 + d - 1 in
  let doe := yoe * 365 + yoe / 4 - yoe / 100 + doy in
  era * 146097 + doe - 719468.

(** Year, month (1..12) and day of the month of the day [doe] (counted
    from the first of March) of the 400-year era [era]. *)
Definition civilInEra (era doe : Z) : Z * Z * Z :=
  let yoe := (doe - doe / 1460 + doe / 36524 - doe / 146096) / 365 in
  let doy := doe - (365 * yoe + yoe / 4 - yoe / 100) in
  let mp := (5 * doy + 2) / 153 in
  let d := doy - (153 * mp + 2) / 5 + 1 in
  let m := if mp <? 10 then mp + 3 else mp - 9 in
  let y := yoe + era * 400 in
  ((if m <=? 2 then y + 1 else y), m, d).

(** Year, month (1..12) and day of the month of a day number. *)
Definition civilFromDays (z : Z) : Z * Z * Z :=
  let z' := z + 719468 in
  let era := z' / 146097 in
  civilInEra era (z' - era * 146097).

Definition isLeap (y : Z) : bool :=
  ((y mod 4 =? 0) && negb (y mod 100 =? 0)) || (y mod 400 =? 0).

Definition daysInMonth (y m : Z) : Z :=
  if m =? 2 then (if isLeap y then 29 else 28)
  else if (m =? 4) || (m =? 6) || (m =? 9) || (m =? 11) then 30
  else 31.

(** [MakeDay(year, month, date)] with a month in 1..12; the date may lie
    outside the month. *)
Definition MakeDay (y m dt : Z) : Z := daysFromCivil y m 1 + dt - 1.

Definition MakeDate (day time : Z) : Z := day * msPerDay + time.

(** The local time zone: the offset (in milliseconds) to add to a UTC
    time value, and the offset in force at a given local time value. *)
Record Zone := {
  offsetAtUTC : Z -> Z;
  offsetAtLocal : Z -> Z
}.

Definition LocalTime (z : Zone) (t : Z) : Z := t + offsetAtUTC z t.
Definition UTC (z : Zone) (tl : Z) : Z := tl - offsetAtLocal z tl.

(** [d.getDate()] *)
Definition getDate (z : Zone) (t : Z) : Z :=
  let '(_, _, d) := civilFromDays (Day (LocalTime z t)) in d.

(** [d.setDate(dt)]: the new time value of [d]. *)
Definition setDate (z : Zone) (t : Z) (dt : Z) : Z :=
  let tl := LocalTime z t in
  let '(y, m, _) := civilFromDays (Day tl) in
  UTC z (MakeDate (MakeDay y m dt) (TimeWithinDay tl)).

Definition digitChar (d : Z) : ascii := chr (Z.to_N (48 + d)).

(** Decimal digits of [n], most significant first, [k] of them. *)
Fixpoint pad (k : nat) (n : Z) : string :=
  match k with
  | O => EmptyString
  | S k' => (pad k' (n / 10) ++ String (digitChar (n mod 10)) EmptyString)%string
  end.

Definition yearString (y : Z) : string :=
  if (0 <=? y) && (y <=? 9999) then pad 4 y
  else if y <? 0 then String (chr 45) (pad 6 (- y))
  else String (chr 43) (pad 6 y).

(** [d.toISOString().split('T')[0]] for a valid time value. *)
Definition isoDate (t : Z) : string :=
  let '(y, m, d) := civilFromDays (Day t) in
  (yearString y ++ "-" ++ pad 2 m ++ "-" ++ pad 2 d)%string.

(** [d.toISOString()] for a valid time value. *)
Definition toISOString (t : Z) : string :=
  let r := TimeWithinDay t in
  (isoDate t ++ "T" ++ pad 2 (r / 3600000) ++ ":" ++ pad 2 (r / 60000 mod 60)
     ++ ":" ++ pad 2 (r / 1000 mod 60) ++ "." ++ pad 3 (r mod 1000) ++ "Z")%string.

Definition digit (c : ascii) : option Z :=
  let n := code c in
  if ((48 <=? n) && (n <=? 57))%N then Some (Z.of_N n - 48) else None.

(** Reads [k] decimal digits off the front of [s]. *)
Fixpoint digits (k : nat) (acc : Z) (s : string) : option (Z * string) :=
  match k with
  | O => Some (acc, s)
  | S k' =>
      match s with
      | EmptyString => None
      | String c s' =>
          match digit c with
          | Some d => digits k' (10 * acc + d) s'
          | None => None
          end
      end
  end.

Definition expect (c : ascii) (s : string) : option string :=
  match s with
  | String a s' => if Ascii.eqb a c then Some s' else None
  | EmptyString => None
  end.

(** [new Date(s)] for the date-only form [YYYY-MM-DD], which is what a
    date input yields: midnight UTC of that day.  Every other string is
    taken as an invalid date (time value NaN).  The host reads more forms
    than this one (a date with a time, a month by its name), each engine
    in its own way: the statements about dates are about records whose
    date has this form and names a day of the calendar. *)
Definition parseDate (s : string) : number :=
  match digits 4 0 s with
  | Some (y, s1) =>
      match expect (chr 45) s1 with
      | Some s2 =>
          match digits 2 0 s2 with
          | Some (m, s3) =>
              match expect (chr 45) s3 with
              | Some s4 =>
                  match digits 2 0 s4 with
                  | Some (d, EmptyString) =>
                      if (1 <=? m) && (m <=? 12) && (1 <=? d) && (d <=? daysInMonth y m)
                      then Some (daysFromCivil y m d * msPerDay)
                      else None
                  | _ => None
                  end
              | None => None
              end
          | None => None
          end
      | None => None
      end
  | None => None
  end.

(** *** Math.random *)

(** A call of [Math.random()] yields [n / 2^53] for some [n < 2^53];
    [Math.random() * 16 | 0] is then the integer part of [16 n / 2^53]. *)
Definition random16 (n : N) : N := ((n mod 2 ^ 53) * 16 / 2 ^ 53)%N.

Definition hexDigits : string := "0123456789abcdef".

(** [v.toString(16)] for [v < 16]. *)
Definition toString16 (v : N) : ascii :=
  match String.get (N.to_nat v) hexDigits with
  | Some c => c
  | None => "?"%char
  end.

(** *** Objects used as string-keyed maps *)

Section Objects.
Context {V : Type}.

(** An object literal is the list of its own properties, in insertion
    order (the order [Object.values] follows). *)
Definition object := list (string * V).

Definition hasOwnProperty (o : object) (k : string) : bool :=
  existsb (fun p => String.eqb (fst p) k) o.

Fixpoint prop (o : object) (k : string) : option V :=
  match o with
  | [] => None
  | (k', v) :: o' => if String.eqb k' k then Some v else prop o' k
  end.

(** [o[k] = v] *)
Fixpoint assign (o : object) (k : string) (v : V) : object :=
  match o with
  | [] => [(k, v)]
  | (k', v') :: o' =>
      if String.eqb k' k then (k', v) :: o' else (k', v') :: assign o' k v
  end.

Definition values (o : object) : list V := map snd o.
End Objects.

End Js.


(* ================================================================== *)
(** ** Data model *)
(* ================================================================== *)

(** A job application record, as [createJob] builds it. *)
Record Job := mkJob {
  id : string;
  company : string;
  role : string;
  jobType : string;
  location : string;
  applicationDate : string;
  status : string;
  jobLink : string;
  notes : string;
  createdAt : string
}.

(** The field bag handed to [addJob] and [updateJob] ([formData],
    [jobData]). *)
Module Data.
Record t := mk {
  company : string;
  role : string;
  jobType : string;
  location : string;
  applicationDate : string;
  status : string;
  jobLink : string;
  notes : string
}.
End Data.

(** [AppState.filters] *)
Module Filters.
Record t := mk {
  search : string;
  status : string;
  jobType : string;
  location : string;
  sort : string
}.

Definition initial : t := mk EmptyString "all" "all" "all" "newest".
End Filters.

(** [AppState] (the chart handles belong to the page and are left out). *)
Record AppState := mkAppState {
  jobs : list Job;
  filteredJobs : list Job;
  currentEditingJobId : option string;
  deletedJob : option Job;
  deleteTimeout : option positive;
  filters : Filters.t
}.

(** What [localStorage] holds under the jobs key, and which values a write
    of that key goes through with: [setItem] throws when the quota is
    exceeded. *)
Record LocalStorage := mkLocalStorage {
  jobsItem : option (list Job);
  accepts : list Job -> bool
}.

(** The timers the script starts that touch [AppState]. *)
Inductive TimerAction := ClearDeletedJob.

Record Timer := mkTimer {
  handle : positive;
  delay : Z;
  action : TimerAction
}.

Record World := mkWorld {
  app : AppState;
  localStorage : LocalStorage;
  timers : list Timer;
  nextHandle : positive;
  entropy : nat -> N;     (* the numerators of the calls of Math.random *)
  drawn : nat;            (* how many calls were made *)
  now : Z;                (* the time value of [new Date()] *)
  zone : Js.Zone
}.

Definition withApp (w : World) (a : AppState) : World :=
  mkWorld a (localStorage w) (timers w) (nextHandle w) (entropy w) (drawn w)
          (now w) (zone w).

Definition withJobs (w : World) (js : list Job) : World :=
  let a := app w in
  withApp w (mkAppState js (filteredJobs a) (currentEditingJobId a)
                        (deletedJob a) (deleteTimeout a) (filters a)).

Definition withFilteredJobs (w : World) (js : list Job) : World :=
  let a := app w in
  withApp w (mkAppState (jobs a) js (currentEditingJobId a)
                        (deletedJob a) (deleteTimeout a) (filters a)).

Definition withDeletedJob (w : World) (d : option Job) : World :=
  let a := app w in
  withApp w (mkAppState (jobs a) (filteredJobs a) (currentEditingJobId a)
                        d (deleteTimeout a) (filters a)).

Definition withDeleteTimeout (w : World) (h : option positive) : World :=
  let a := app w in
  withApp w (mkAppState (jobs a) (filteredJobs a) (currentEditingJobId a)
                        (deletedJob a) h (filters a)).

Definition withLocalStorage (w : World) (ls : LocalStorage) : World :=
  mkWorld (app w) ls (timers w) (nextHandle w) (entropy w) (drawn w)
          (now w) (zone w).

Definition withTimers (w : World) (ts : list Timer) (next : positive) : World :=
  mkWorld (app w) (localStorage w) ts next (entropy w) (drawn w)
          (now w) (zone w).

Definition withDrawn (w : World) (n : nat) : World :=
  mkWorld (app w) (localStorage w) (timers w) (nextHandle w) (entropy w) n
          (now w) (zone w).

(* ================================================================== *)
(** ** Timers *)
(* ================================================================== *)

(** [setTimeout(f, ms)]: the handle is a fresh positive integer. *)
Definition setTimeout (act : TimerAction) (ms : Z) (w : World) : World * positive :=
  let h := nextHandle w in
  (withTimers w (timers w ++ [mkTimer h ms act]) (Pos.succ h), h).

Definition clearTimeout (h : positive) (w : World) : World :=
  withTimers w (filter (fun t => negb (Pos.eqb (handle t) h)) (timers w))
             (nextHandle w).

Definition runAction (act : TimerAction) (w : World) : World :=
  match act with
  | ClearDeletedJob => withDeletedJob w None
  end.

(** The timer with handle [h] elapses: it leaves the queue and its
    callback runs. *)
Definition fire (h : positive) (w : World) : World :=
  match Js.find (fun t => Pos.eqb (handle t) h) (timers w) with
  | Some t => runAction (action t) (clearTimeout h w)
  | None => w
  end.

(* ================================================================== *)
(** ** Storage layer *)
(* ================================================================== *)

Module Storage.

(** [Storage.get(Storage.KEYS.JOBS)] *)
Definition get (ls : LocalStorage) : option (list Job) := jobsItem ls.

(** [Storage.set(Storage.KEYS.JOBS, value)]: [true] when the write went
    through, [false] when [setItem] threw. *)
Definition set (value : list Job) (ls : LocalStorage) : LocalStorage * bool :=
  if accepts ls value
  then (mkLocalStorage (Some value) (accepts ls), true)
  else (ls, false).

End Storage.

(* ================================================================== *)
(** ** Data model and utilities *)
(* ================================================================== *)

Definition uuidTemplate : string := "xxxxxxxx-xxxx-4xxx-yxxx-xxxxxxxxxxxx".

(** The replacement function of [generateUUID], on the numerator [n] of
    the call of [Math.random] it makes. *)
Definition uuidDigit (c : ascii) (n : N) : ascii :=
  let r := Js.random16 n in
  let v := if Ascii.eqb c "x" then r else N.lor (N.land r 3) 8 in
  Js.toString16 v.

(** [template.replace(/[xy]/g, f)]: every [x] and [y] is replaced, left to
    right, each replacement drawing one random number. *)
Fixpoint uuidFill (template : string) (rnd : nat -> N) (k : nat) : string * nat :=
  match template with
  | EmptyString => (EmptyString, k)
  | String c rest =>
      if Ascii.eqb c "x" || Ascii.eqb c "y"
      then let '(s, k') := uuidFill rest rnd (S k) in
           (String (uuidDigit c (rnd k)) s, k')
      else let '(s, k') := uuidFill rest rnd k in
           (String c s, k')
  end.

Definition generateUUID (w : World) : World * string :=
  let '(s, k) := uuidFill uuidTemplate (entropy w) (drawn w) in
  (withDrawn w k, s).

(** The text of an element whose [textContent] is one character, as
    [innerHTML] serialises it. *)
Definition escapeChar (c : ascii) : string :=
  if Ascii.eqb c "&" then "&amp;"
  else if Ascii.eqb c "<" then "&lt;"
  else if Ascii.eqb c ">" then "&gt;"
  else if (Js.code c =? 160)%N then "&nbsp;"
  else String c EmptyString.

(** [sanitizeInput] on a string. *)
Fixpoint sanitizeInput (input : string) : string :=
  match input with
  | EmptyString => EmptyString
  | String c s => (escapeChar c ++ sanitizeInput s)%string
  end.

(** [x || empty] on a string. *)
Definition orEmpty (x : string) : string :=
  if Js.truthy x then x else EmptyString.

Definition createJob (data : Data.t) (w : World) : World * Job :=
  let '(w1, uuid) := generateUUID w in
  (w1, {| id := uuid;
          company := sanitizeInput (Data.company data);
          role := sanitizeInput (Data.role data);
          jobType := Data.jobType data;
          location := Data.location data;
          applicationDate := Data.applicationDate data;
          status := Data.status data;
          jobLink := orEmpty (Data.jobLink data);
          notes := orEmpty (sanitizeInput (Data.notes data));
          createdAt := Js.toISOString (now w1) |}).

(* ================================================================== *)
(** ** Search and filter *)
(* ================================================================== *)

(** The comparison function handed to [sort] in [applyFilters]. *)
Definition compareJobs (sort : string) (a b : Job) : Z :=
  let dateA := Js.parseDate (applicationDate a) in
  let dateB := Js.parseDate (applicationDate b) in
  Js.nanToZero (if String.eqb sort "newest" then Js.sub dateB dateA
                else Js.sub dateA dateB).

(** The list [applyFilters] computes from the jobs and the filters. *)
Definition filterJobs (f : Filters.t) (js : list Job) : list Job :=
  let filtered := js in
  let filtered :=
    if Js.truthy (Filters.search f) then
      let searchLower := Js.toLowerCase (Filters.search f) in
      filter (fun job =>
                Js.includes (Js.toLowerCase (company job)) searchLower
                || Js.includes (Js.toLowerCase (role job)) searchLower)
             filtered
    else filtered in
  let filtered :=
    if negb (String.eqb (Filters.status f) "all")
    then filter (fun job => String.eqb (status job) (Filters.status f)) filtered
    else filtered in
  let filtered :=
    if negb (String.eqb (Filters.jobType f) "all")
    then filter (fun job => String.eqb (jobType job) (Filters.jobType f)) filtered
    else filtered in
  let filtered :=
    if negb (String.eqb (Filters.location f) "all")
    then filter (fun job => String.eqb (location job) (Filters.location f)) filtered
    else filtered in
  Js.sort (compareJobs (Filters.sort f)) filtered.

(** [applyFilters]: the rendering it ends with changes the page only. *)
Definition applyFilters (w : World) : World :=
  withFilteredJobs w (filterJobs (filters (app w)) (jobs (app w))).

(* ================================================================== *)
(** ** CRUD operations *)
(* ================================================================== *)

Definition loadJobs (w : World) : World :=
  let js := match Storage.get (localStorage w) with
            | Some l => l
            | None => []
            end in
  applyFilters (withJobs w js).

Definition saveJobs (w : World) : World * bool :=
  let '(ls, ok) := Storage.set (jobs (app w)) (localStorage w) in
  (withLocalStorage w ls, ok).

Definition addJob (jobData : Data.t) (w : World) : World * option Job :=
  let '(w1, job) := createJob jobData w in
  let w2 := withJobs w1 (Js.unshift job (jobs (app w1))) in
  let '(w3, ok) := saveJobs w2 in
  if ok then (applyFilters w3, Some job) else (w3, None).

(** The object [updateJob] stores at the index it found. *)
Definition updated (old : Job) (jobData : Data.t) : Job :=
  {| id := id old;
     company := sanitizeInput (Data.company jobData);
     role := sanitizeInput (Data.role jobData);
     jobType := Data.jobType jobData;
     location := Data.location jobData;
     applicationDate := Data.applicationDate jobData;
     status := Data.status jobData;
     jobLink := orEmpty (Data.jobLink jobData);
     notes := orEmpty (sanitizeInput (Data.notes jobData));
     createdAt := createdAt old |}.

(** [a[i] = x] for an index inside the array. *)
Fixpoint setAt {A : Type} (i : nat) (x : A) (l : list A) : list A :=
  match l, i with
  | [], _ => []
  | _ :: l', O => x :: l'
  | y :: l', S i' => y :: setAt i' x l'
  end.

Definition updateJob (jobId : string) (jobData : Data.t) (w : World) : World * bool :=
  match Js.findIndex (fun job => String.eqb (id job) jobId) (jobs (app w)) with
  | Some index =>
      match nth_error (jobs (app w)) index with
      | Some old =>
          let w1 := withJobs w (setAt index (updated old jobData) (jobs (app w))) in
          let '(w2, ok) := saveJobs w1 in
          if ok then (applyFilters w2, true) else (w2, false)
      | None => (w, false)
      end
  | None => (w, false)
  end.

Definition deleteJob (jobId : string) (w : World) : World * option Job :=
  match Js.findIndex (fun job => String.eqb (id job) jobId) (jobs (app w)) with
  | Some index =>
      match Js.splice_out index (jobs (app w)) with
      | ([deletedJob], rest) =>
          let w1 := withJobs w rest in
          let '(w2, ok) := saveJobs w1 in
          if ok then (applyFilters w2, Some deletedJob)
          else (* Restore if save failed *)
            (withJobs w2 (Js.splice_in index deletedJob (jobs (app w2))), None)
      | _ => (w, None)
      end
  | None => (w, None)
  end.

Definition getJobById (jobId : string) (w : World) : option Job :=
  Js.find (fun job => String.eqb (id job) jobId) (jobs (app w)).

(* ================================================================== *)
(** ** Analytics engine *)
(* ================================================================== *)

Definition emptyBreakdown : list (string * nat) :=
  [("Applied", 0); ("Interview", 0); ("Offer", 0); ("Rejected", 0); ("Ghosted", 0)].

(** [statusBreakdown[key]++] *)
Definition increment (o : list (string * nat)) (key : string) : list (string * nat) :=
  match Js.prop o key with
  | Some n => Js.assign o key (S n)
  | None => o
  end.

(** [calculateAnalytics]: [total] and [statusBreakdown]. *)
Definition calculateAnalytics (w : World) : nat * list (string * nat) :=
  let total := List.length (jobs (app w)) in
  let statusBreakdown :=
    fold_left (fun sb job =>
                 if Js.hasOwnProperty sb (status job)
                 then increment sb (status job) else sb)
              (jobs (app w)) emptyBreakdown in
  (total, statusBreakdown).

(** [hasData] of [renderCharts]. *)
Definition hasData (statusBreakdown : list (string * nat)) : bool :=
  existsb (fun val => (0 <? val)%nat) (Js.values statusBreakdown).

(** The series the status chart is given. *)
Definition statusChartData (w : World) : list nat :=
  let '(_, statusBreakdown) := calculateAnalytics w in
  if hasData statusBreakdown then Js.values statusBreakdown else [1; 1; 1; 1; 1].

(** [n; n-1; ...; 0]: the values of [i] in [for (let i = n; i >= 0; i--)]. *)
Fixpoint countdown (n : nat) : list nat :=
  match n with
  | O => [O]
  | S n' => n :: countdown n'
  end.

(** [(dateMap[dateKey] || 0)] *)
Definition countOf (dateMap : list (string * nat)) (dateKey : string) : nat :=
  match Js.prop dateMap dateKey with
  | Some n => n
  | None => 0
  end.

(** The first loop of [calculateTrend]. *)
Definition groupByDate (last30Days : Z) (js : list Job) : list (string * nat) :=
  fold_left (fun dateMap job =>
               let jobDate := Js.parseDate (applicationDate job) in
               if Js.geq jobDate (Some last30Days) then
                 match jobDate with
                 | Some t =>
                     let dateKey := Js.isoDate t in
                     Js.assign dateMap dateKey (countOf dateMap dateKey + 1)
                 | None => dateMap
                 end
               else dateMap)
            js [].

(** The date [i] days before now, as the second loop of [calculateTrend]
    builds it. *)
Definition daysAgo (w : World) (i : nat) : Z :=
  Js.setDate (zone w) (now w) (Js.getDate (zone w) (now w) - Z.of_nat i).

(** A label of the trend chart: month and day of the month, local time. *)
Definition trendLabel (w : World) (date : Z) : Z * Z :=
  let '(_, m, d) := Js.civilFromDays (Js.Day (Js.LocalTime (zone w) date)) in (m, d).

(** [calculateTrend]: [labels] and [data]. *)
Definition calculateTrend (w : World) : list (Z * Z) * list nat :=
  let last30Days := daysAgo w 30 in
  let dateMap := groupByDate last30Days (jobs (app w)) in
  let days := countdown 29 in
  (map (fun i => trendLabel w (daysAgo w i)) days,
   map (fun i => countOf dateMap (Js.isoDate (daysAgo w i))) days).

(** The value the job form proposes as the application date: "today". *)
Definition defaultApplicationDate (w : World) : string := Js.isoDate (now w).

(* ================================================================== *)
(** ** Delete with undo *)
(* ================================================================== *)

(** [handleConfirmDelete], with [jobId] the id the dialog carries (absent
    when it carries none). *)
Definition handleConfirmDelete (jobId : option string) (w : World) : World :=
  match jobId with
  | Some jid =>
      if Js.truthy jid then
        match deleteJob jid w with
        | (w1, Some deleted) =>
            let w2 := withDeletedJob w1 (Some deleted) in
            let w3 := match deleteTimeout (app w2) with
                      | Some h => clearTimeout h w2
                      | None => w2
                      end in
            let '(w4, h) := setTimeout ClearDeletedJob 5000 w3 in
            withDeleteTimeout w4 (Some h)
        | (w1, None) => w1
        end
      else w
  | None => w
  end.

Definition handleUndoDelete (w : World) : World :=
  match deletedJob (app w) with
  | Some deleted =>
      let w1 := withJobs w (Js.unshift deleted (jobs (app w))) in
      let '(w2, _) := saveJobs w1 in
      let w3 := applyFilters w2 in
      let w4 := match deleteTimeout (app w3) with
                | Some h => clearTimeout h w3
                | None => w3
                end in
      withDeletedJob w4 None
  | None => w
  end.

(* ================================================================== *)
(** ** CSV import and export *)
(* ================================================================== *)

Definition csvHeaders : list string :=
  ["Company"; "Role"; "Job Type"; "Location"; "Application Date"; "Status";
   "Job Link"; "Notes"].

Definition csvRow (job : Job) : list string :=
  [company job; role job; jobType job; location job; applicationDate job;
   status job; jobLink job; notes job].

Definition quoted (cell : string) : string :=
  (String Js.quote cell ++ String Js.quote EmptyString)%string.

(** [csvContent] of [exportToCSV]: the header line and one line a record. *)
Definition csvContent (js : list Job) : string :=
  let rows := map csvRow js in
  Js.join (String Js.newline EmptyString)
          (Js.join "," csvHeaders
           :: map (fun row => Js.join "," (map quoted row)) rows).

(** The text [exportToCSV] puts in the file; nothing is exported from an
    empty collection. *)
Definition exportToCSV (w : World) : option string :=
  match jobs (app w) with
  | [] => None
  | _ :: _ => Some (csvContent (jobs (app w)))
  end.

(** [\s*] *)
Fixpoint skipSpaces (s : string) : string :=
  match s with
  | String c s' => if Js.isWhiteSpace c then skipSpaces s' else s
  | EmptyString => EmptyString
  end.

(** The lookahead [(?=\s*,|\s*$)].  Giving back white space taken by [\s*]
    never helps, as neither a comma nor the end is white space. *)
Definition lookahead (s : string) : bool :=
  match skipSpaces s with
  | EmptyString => true
  | String c _ => Ascii.eqb c Js.comma
  end.

(** The first alternative after its opening quote: a lazy run [.*?] of
    characters other than line terminators, the closing quote and then the
    lookahead; the shortest run that works. *)
Fixpoint lazyQuoted (s : string) : option string :=
  match s with
  | EmptyString => None
  | String c s' =>
      if Ascii.eqb c Js.quote && lookahead s' then Some EmptyString
      else if Js.isLineTerminator c then None
      else option_map (String c) (lazyQuoted s')
  end.

Definition isBare (c : ascii) : bool :=
  negb (Ascii.eqb c Js.quote || Ascii.eqb c Js.comma || Js.isWhiteSpace c).

(** The second alternative: one or more characters that are neither a
    quote, a comma nor white space, and then the lookahead; the longest run
    that works. *)
Fixpoint greedyBare (s : string) : option string :=
  match s with
  | String c s' =>
      if isBare c then
        match greedyBare s' with
        | Some m => Some (String c m)
        | None => if lookahead s' then Some (String c EmptyString) else None
        end
      else None
  | EmptyString => None
  end.

(** A match of the field pattern of [importFromCSV] at the start of [s]:
    a quoted field or else a bare one, each followed by the lookahead. *)
Definition matchField (s : string) : option string :=
  match s with
  | String c s' =>
      match (if Ascii.eqb c Js.quote
             then option_map (fun m => quoted m) (lazyQuoted s')
             else None) with
      | Some m => Some m
      | None => greedyBare s
      end
  | EmptyString => None
  end.

(** All the matches, left to right: after a match the search resumes
    behind it ([skip] characters are still part of the last match). *)
Fixpoint scanFields (skip : nat) (s : string) : list string :=
  match s with
  | EmptyString => []
  | String _ s' =>
      match skip with
      | S k => scanFields k s'
      | O =>
          match matchField s with
          | Some m => m :: scanFields (String.length m - 1) s'
          | None => scanFields 0 s'
          end
      end
  end.

(** [line.match(pattern)] with the global flag, [None] for [null]. *)
Definition matchFields (line : string) : option (list string) :=
  match scanFields 0 line with
  | [] => None
  | l => Some l
  end.

Definition dropLast (s : string) : string :=
  String.substring 0 (String.length s - 1) s.

Fixpoint endsWithQuote (s : string) : bool :=
  match s with
  | EmptyString => false
  | String c EmptyString => Ascii.eqb c Js.quote
  | String _ s' => endsWithQuote s'
  end.

(** The [replace] of [importFromCSV]: a quote at the very start and a
    quote at the very end are removed. *)
Definition stripQuotes (field : string) : string :=
  let s := match field with
           | String c s' => if Ascii.eqb c Js.quote then s' else field
           | EmptyString => EmptyString
           end in
  if endsWithQuote s then dropLast s else s.

(** The body of the loop of [importFromCSV] for one line; the count of
    imported jobs goes up when [addJob] gives a job back. *)
Definition importLine (rawLine : string) (st : World * nat) : World * nat :=
  let '(w, imported) := st in
  let line := Js.trim rawLine in
  if negb (Js.truthy line) then st
  else
    match matchFields line with
    | None => st
    | Some matches =>
        if (List.length matches <? 6)%nat then st
        else
          let fields := map stripQuotes matches in
          let jobData :=
            let field i := nth i fields EmptyString in
            Data.mk (field 0) (field 1) (field 2) (field 3) (field 4)
                    (field 5) (field 6) (field 7) in
          match addJob jobData w with
          | (w', Some _) => (w', S imported)
          | (w', None) => (w', imported)
          end
    end.

Inductive ImportOutcome :=
| EmptyOrInvalid            (* 'CSV file is empty or invalid' *)
| Imported (n : nat)        (* the toast with the count *)
| NoValidJobs.              (* 'No valid jobs found in CSV file' *)

(** The [onload] handler of [importFromCSV] on the text of the file. *)
Definition importFromCSV (text : string) (w : World) : World * ImportOutcome :=
  match Js.split Js.newline text with
  | _ :: (line1 :: more) =>
      let '(w', imported) :=
        fold_left (fun st line => importLine line st) (line1 :: more) (w, 0) in
      (w', if (0 <? imported)%nat then Imported imported else NoValidJobs)
  | _ => (w, EmptyOrInvalid)
  end.

(** The eight fields a CSV row carries. *)
Definition content (job : Job) : Data.t :=
  Data.mk (company job) (role job) (jobType job) (location job)
          (applicationDate job) (status job) (jobLink job) (notes job).

(* ================================================================== *)
(** ** Form, dialogs and filter controls *)
(* ================================================================== *)

Definition withEditing (w : World) (e : option string) : World :=
  let a := app w in
  withApp w (mkAppState (jobs a) (filteredJobs a) e
                        (deletedJob a) (deleteTimeout a) (filters a)).

Definition withFilters (w : World) (f : Filters.t) : World :=
  let a := app w in
  withApp w (mkAppState (jobs a) (filteredJobs a) (currentEditingJobId a)
                        (deletedJob a) (deleteTimeout a) f).

(** [showJobModal(jobId)] and [hideJobModal]: what they leave in
    [AppState] (the rest is the page). *)
Definition showJobModal (jobId : option string) (w : World) : World :=
  withEditing w jobId.

Definition hideJobModal (w : World) : World := withEditing w None.

Definition handleAddJob (w : World) : World := showJobModal None w.

Definition handleEditJob (jobId : string) (w : World) : World :=
  showJobModal (Some jobId) w.

(** [validateURL]; [parses] tells whether [new URL(url)] goes through. *)
Definition validateURL (parses : string -> bool) (url : string) : bool :=
  if negb (Js.truthy url) then true else parses url.

(** [formData] of [handleFormSubmit], from the values of the form. *)
Definition readForm (form : Data.t) : Data.t :=
  Data.mk (Js.trim (Data.company form)) (Js.trim (Data.role form))
          (Data.jobType form) (Data.location form)
          (Data.applicationDate form) (Data.status form)
          (Js.trim (Data.jobLink form)) (Js.trim (Data.notes form)).

(** The first test of [handleFormSubmit]: a required field is missing. *)
Definition missingRequired (formData : Data.t) : bool :=
  negb (Js.truthy (Data.company formData))
  || negb (Js.truthy (Data.role formData))
  || negb (Js.truthy (Data.jobType formData))
  || negb (Js.truthy (Data.location formData))
  || negb (Js.truthy (Data.applicationDate formData))
  || negb (Js.truthy (Data.status formData)).

(** [handleFormSubmit] on the values [form] of the fields.  The alerts
    and the toasts change the page only. *)
Definition handleFormSubmit (parses : string -> bool) (form : Data.t)
    (w : World) : World :=
  let formData := readForm form in
  if missingRequired formData then w
  else if Js.truthy (Data.jobLink formData)
          && negb (validateURL parses (Data.jobLink formData)) then w
  else
    match currentEditingJobId (app w) with
    | Some jobId =>
        if Js.truthy jobId then
          let '(w1, ok) := updateJob jobId formData w in
          if ok then hideJobModal w1 else w1
        else
          match addJob formData w with
          | (w1, Some _) => hideJobModal w1
          | (w1, None) => w1
          end
    | None =>
        match addJob formData w with
        | (w1, Some _) => hideJobModal w1
        | (w1, None) => w1
        end
    end.

Definition handleSearch (value : string) (w : World) : World :=
  let f := filters (app w) in
  applyFilters
    (withFilters w (Filters.mk (Js.trim value) (Filters.status f)
                               (Filters.jobType f) (Filters.location f)
                               (Filters.sort f))).

Definition handleStatusFilter (value : string) (w : World) : World :=
  let f := filters (app w) in
  applyFilters
    (withFilters w (Filters.mk (Filters.search f) value (Filters.jobType f)
                               (Filters.location f) (Filters.sort f))).

Definition handleJobTypeFilter (value : string) (w : World) : World :=
  let f := filters (app w) in
  applyFilters
    (withFilters w (Filters.mk (Filters.search f) (Filters.status f) value
                               (Filters.location f) (Filters.sort f))).

Definition handleLocationFilter (value : string) (w : World) : World :=
  let f := filters (app w) in
  applyFilters
    (withFilters w (Filters.mk (Filters.search f) (Filters.status f)
                               (Filters.jobType f) value (Filters.sort f))).

Definition handleSort (value : string) (w : World) : World :=
  let f := filters (app w) in
  applyFilters
    (withFilters w (Filters.mk (Filters.search f) (Filters.status f)
                               (Filters.jobType f) (Filters.location f) value)).

(* ================================================================== *)
(** ** Sample worlds *)
(* ================================================================== *)

Module Sample.

Definition utc : Js.Zone :=
  {| Js.offsetAtUTC := fun _ => 0%Z; Js.offsetAtLocal := fun _ => 0%Z |}.

(** Noon UTC on 2026-01-28. *)
Definition noon : Z := 1769601600000.

Definition spread (k : nat) : N := (N.of_nat k * 2 ^ 49 + 12345)%N.

Definition emptyApp : AppState :=
  mkAppState [] [] None None None Filters.initial.

(** An empty store whose writes go through. *)
Definition fresh : World :=
  mkWorld emptyApp (mkLocalStorage None (fun _ => true)) [] 1%positive
          spread 0 noon utc.

(** An empty store whose random numbers are all the same. *)
Definition stuck : World :=
  mkWorld emptyApp (mkLocalStorage None (fun _ => true)) [] 1%positive
          (fun _ => 0%N) 0 noon utc.

Definition google : Data.t :=
  Data.mk "Google" "SWE" "Full-time" "Remote" "2026-01-28" "Applied"
          EmptyString EmptyString.

Definition acme : Data.t :=
  Data.mk "Acme" "Tester" "Contract" "Onsite" "2026-01-20" "Offer"
          "https://acme.example/jobs/7" "second round".

Definition initech : Data.t :=
  Data.mk "Initech" "Analyst" "Internship" "Hybrid" "2026-01-28" "Archived"
          EmptyString "status from an older file".

Definition job (i : string) (d : Data.t) : Job :=
  mkJob i (Data.company d) (Data.role d) (Data.jobType d) (Data.location d)
        (Data.applicationDate d) (Data.status d) (Data.jobLink d)
        (Data.notes d) "2026-01-20T08:00:00.000Z".

Definition three : list Job :=
  [job "a" google; job "b" acme; job "c" initech].

(** A store of three records, in step with what is persisted. *)
Definition stocked : World :=
  mkWorld (mkAppState three three None None None Filters.initial)
          (mkLocalStorage (Some three) (fun _ => true)) [] 1%positive
          spread 0 noon utc.

(** The same store once the quota is used up: no write goes through. *)
Definition full : World :=
  withLocalStorage stocked (mkLocalStorage (Some three) (fun _ => false)).

(** The same store with the record [b] deleted and the undo pending. *)
Definition pending : World := handleConfirmDelete (Some "b") stocked.

(** US Eastern time from November 2025 to November 2026: five hours
    behind UTC until 2026-03-08 02:00 local time (07:00 UTC), four hours
    behind from then on. *)
Definition springForward : Z := Js.daysFromCivil 2026 3 8 * Js.msPerDay + 7 * 3600000.

Definition eastern : Js.Zone :=
  {| Js.offsetAtUTC := fun t =>
       if (t <? springForward)%Z then (-5 * 3600000)%Z else (-4 * 3600000)%Z;
     Js.offsetAtLocal := fun tl =>
       if (tl <? springForward - 5 * 3600000)%Z
       then (-5 * 3600000)%Z else (-4 * 3600000)%Z |}.

(** 2026-03-08 23:30 UTC, which is 19:30 the same day in US Eastern time. *)
Definition sundayEvening : Z :=
  Js.daysFromCivil 2026 3 8 * Js.msPerDay + 23 * 3600000 + 30 * 60000.

Definition appliedToday : Job :=
  job "t" (Data.mk "Globex" "Engineer" "Full-time" "Remote" "2026-03-08"
                   "Applied" EmptyString EmptyString).

(** A store with one record, dated the day it is, in New York on the
    evening of the change to summer time. *)
Definition newYork : World :=
  mkWorld (mkAppState [appliedToday] [appliedToday] None None None Filters.initial)
          (mkLocalStorage (Some [appliedToday]) (fun _ => true)) [] 1%positive
          spread 0 sundayEvening eastern.

(** The same store and instant, seen from a place on UTC. *)
Definition reykjavik : World :=
  mkWorld (mkAppState [appliedToday] [appliedToday] None None None Filters.initial)
          (mkLocalStorage (Some [appliedToday]) (fun _ => true)) [] 1%positive
          spread 0 sundayEvening utc.

End Sample.

(* ================================================================== *)
(** ** Vocabulary of the statements *)
(* ================================================================== *)

(** The collection once the first record with the given id is taken out. *)
Definition afterRemoval (jobId : string) (js : list Job) : list Job :=
  match Js.findIndex (fun job => String.eqb (id job) jobId) js with
  | Some index => snd (Js.splice_out index js)
  | None => js
  end.

(** The ids present in the collection of a world. *)
Definition ids (w : World) : list string := map id (jobs (app w)).

(** The statuses the analytics know. *)
Definition knownStatuses : list string :=
  ["Applied"; "Interview"; "Offer"; "Rejected"; "Ghosted"].

(** One turn of the loop of [calculateAnalytics]. *)
Definition breakdownStep (sb : list (string * nat)) (job : Job) :=
  if Js.hasOwnProperty sb (status job) then increment sb (status job) else sb.

(** A breakdown with the given five counts. *)
Definition breakdownOf (a i o r g : nat) : list (string * nat) :=
  [("Applied", a); ("Interview", i); ("Offer", o); ("Rejected", r); ("Ghosted", g)].

(** How many records carry the status [s]. *)
Definition countStatus (s : string) (js : list Job) : nat :=
  List.length (filter (fun job => String.eqb (status job) s) js).

(** The time value of the application date of a record (zero when the date
    is invalid; the statements below are about valid dates). *)
Definition timeOf (job : Job) : Z :=
  Js.nanToZero (Js.parseDate (applicationDate job)).

Definition validDate (job : Job) : Prop :=
  Js.parseDate (applicationDate job) <> None.

(** The filters as they are when the page opens: nothing searched, every
    status, type and location, newest first. *)
Definition showAll : Filters.t :=
  Filters.mk EmptyString "all" "all" "all" "newest".

(** The state of the undo controller. *)
Inductive UndoState := Idle | PendingUndo.

Definition undoState (w : World) : UndoState :=
  match deletedJob (app w) with
  | Some _ => PendingUndo
  | None => Idle
  end.

(** The handles of the timers still running. *)
Definition pendingHandles (w : World) : list positive := map handle (timers w).

(** [p] holds of every character of [s]. *)
Fixpoint every (p : ascii -> bool) (s : string) : bool :=
  match s with
  | EmptyString => true
  | String c s' => p c && every p s'
  end.

(** A character a quoted CSV field carries through export and import:
    anything but the quote and the line terminators. *)
Definition plainChar (c : ascii) : bool :=
  negb (Ascii.eqb c Js.quote) && negb (Js.isLineTerminator c).

(** A plain character that [sanitizeInput] leaves alone. *)
Definition textChar (c : ascii) : bool :=
  plainChar c
  && negb (Ascii.eqb c "&" || Ascii.eqb c "<" || Ascii.eqb c ">"
           || (Js.code c =? 160)%N).

(** A record whose fields are made of such characters: plain ones
    throughout, and none that [sanitizeInput] rewrites in the three fields
    it is applied to. *)
Definition exportable (job : Job) : bool :=
  every textChar (company job) && every textChar (role job)
  && every plainChar (jobType job) && every plainChar (location job)
  && every plainChar (applicationDate job) && every plainChar (status job)
  && every plainChar (jobLink job) && every textChar (notes job).

Definition notNewline (c : ascii) : bool := negb (Ascii.eqb c Js.newline).

(** A line of the exported file: the cells quoted and joined by commas. *)
Definition rowText (cells : list string) : string :=
  Js.join "," (map quoted cells).

(** A zone whose offset never changes. *)
Definition constantOffset (z : Js.Zone) (c : Z) : Prop :=
  forall x, Js.offsetAtUTC z x = c /\ Js.offsetAtLocal z x = c.

(** The largest time value a date of the host language can hold. *)
Definition maxTime : Z := 8640000000000000.

(** The text [isoDate] gives for a year, a month and a day. *)
Definition dateString (y m d : Z) : string :=
  (Js.yearString y ++ "-" ++ Js.pad 2 m ++ "-" ++ Js.pad 2 d)%string.

(** A lower-case hexadecimal digit. *)
Definition isHex (c : ascii) : bool :=
  (((48 <=? Js.code c) && (Js.code c <=? 57))
   || ((97 <=? Js.code c) && (Js.code c <=? 102)))%N.

(** The shape of an id: hexadecimal digits with dashes after the 8th, 12th,
    16th and 20th of them, the 13th digit a 4 and the 17th one of 8, 9, a
    and b. *)
Fixpoint uuidShape (template id : string) : bool :=
  match template, id with
  | EmptyString, EmptyString => true
  | String t template', String c id' =>
      (if Ascii.eqb t "x" then isHex c
       else if Ascii.eqb t "y"
            then Ascii.eqb c "8" || Ascii.eqb c "9" || Ascii.eqb c "a" || Ascii.eqb c "b"
            else Ascii.eqb c t)
      && uuidShape template' id'
  | _, _ => false
  end.

(** The characters [sanitizeInput] rewrites. *)
Definition escaped (c : ascii) : bool :=
  Ascii.eqb c "&" || Ascii.eqb c "<" || Ascii.eqb c ">" || (Js.code c =? 160)%N.

Definition notBracket (c : ascii) : bool :=
  negb (Ascii.eqb c "<" || Ascii.eqb c ">").
(** The three operations that change the collection, each with whether it
    reports success. *)
Inductive Mutation :=
| MAdd (jobData : Data.t)
| MUpdate (jobId : string) (jobData : Data.t)
| MDelete (jobId : string).

Definition succeeded {A : Type} (r : option A) : bool :=
  match r with Some _ => true | None => false end.

Definition mutate (m : Mutation) (w : World) : World * bool :=
  match m with
  | MAdd jobData =>
      let '(w', r) := addJob jobData w in (w', succeeded r)
  | MUpdate jobId jobData => updateJob jobId jobData w
  | MDelete jobId =>
      let '(w', r) := deleteJob jobId w in (w', succeeded r)
  end.

(** A record passes the filters: the search text, when there is one, is
    part of the company or of the role, letter case apart, and status,
    type and location are the ones asked for, when one is asked for. *)
Definition matches (f : Filters.t) (job : Job) : bool :=
  (negb (Js.truthy (Filters.search f))
   || Js.includes (Js.toLowerCase (company job)) (Js.toLowerCase (Filters.search f))
   || Js.includes (Js.toLowerCase (role job)) (Js.toLowerCase (Filters.search f)))
  && (String.eqb (Filters.status f) "all"
      || String.eqb (status job) (Filters.status f))
  && (String.eqb (Filters.jobType f) "all"
      || String.eqb (jobType job) (Filters.jobType f))
  && (String.eqb (Filters.location f) "all"
      || String.eqb (location job) (Filters.location f)).

(** The filters [f] with another search text. *)
Definition searching (f : Filters.t) (text : string) : Filters.t :=
  Filters.mk text (Filters.status f) (Filters.jobType f) (Filters.location f)
             (Filters.sort f).

(** What the user and the timer queue can make the page do. *)
Inductive Command :=
| Add (jobData : Data.t)
| Update (jobId : string) (jobData : Data.t)
| ConfirmDelete (jobId : option string)
| Undo
| Elapse (h : positive)
| Search (value : string)
| SetStatus (value : string)
| SetJobType (value : string)
| SetLocation (value : string)
| SetSort (value : string)
| Import (text : string)
| OpenAdd
| OpenEdit (jobId : string)
| Submit (parses : string -> bool) (form : Data.t).

Definition run (c : Command) (w : World) : World :=
  match c with
  | Add jobData => fst (addJob jobData w)
  | Update jobId jobData => fst (updateJob jobId jobData w)
  | ConfirmDelete jobId => handleConfirmDelete jobId w
  | Undo => handleUndoDelete w
  | Elapse h => fire h w
  | Search value => handleSearch value w
  | SetStatus value => handleStatusFilter value w
  | SetJobType value => handleJobTypeFilter value w
  | SetLocation value => handleLocationFilter value w
  | SetSort value => handleSort value w
  | Import text => fst (importFromCSV text w)
  | OpenAdd => handleAddJob w
  | OpenEdit jobId => handleEditJob jobId w
  | Submit parses form => handleFormSubmit parses form w
  end.

Definition runAll (cs : list Command) (w : World) : World :=
  fold_left (fun w c => run c w) cs w.

(** The undo slot and the timers agree: a record waits in the slot with
    exactly one timer running, the one [AppState] remembers; with the slot
    empty no timer runs. *)
Definition slotAgrees (w : World) : Prop :=
  match deletedJob (app w) with
  | Some _ => exists h, deleteTimeout (app w) = Some h /\ pendingHandles w = [h]
  | None => pendingHandles w = []
  end.

(** The storage never refuses a write. *)
Definition acceptsAll (w : World) : Prop :=
  forall value, accepts (localStorage w) value = true.

(** The collection a reload would bring back. *)
Definition storedJobs (w : World) : list Job :=
  match Storage.get (localStorage w) with
  | Some js => js
  | None => []
  end.

(** Memory, storage and the list shown agree. *)
Definition inStep (w : World) : Prop :=
  storedJobs w = jobs (app w)
  /\ filteredJobs (app w) = filterJobs (filters (app w)) (jobs (app w)).

(** The parts of the world the undo controller owns. *)
Definition undoPart (w : World) : option Job * option positive * list Timer :=
  (deletedJob (app w), deleteTimeout (app w), timers w).
(** The parts of the world the record store owns. *)
Definition storePart (w : World) :=
  (jobs (app w), filteredJobs (app w), filters (app w), localStorage w).

Definition sound (w : World) : Prop := acceptsAll w /\ inStep w.

(** The status of a record is one of the five the analytics know. *)
Definition knownStatus (job : Job) : bool :=
  existsb (String.eqb (status job)) knownStatuses.


(** The test of the first loop of [calculateTrend], and the key it uses. *)
Definition inWindow (start : Z) (job : Job) : bool :=
  Js.geq (Js.parseDate (applicationDate job)) (Some start).

Definition keyed (key : string) (job : Job) : bool :=
  match Js.parseDate (applicationDate job) with
  | Some t => String.eqb (Js.isoDate t) key
  | None => false
  end.

(** The count an import reports (zero when it reports none). *)
Definition reported (o : ImportOutcome) : nat :=
  match o with
  | Imported n => n
  | _ => 0
  end.

(** The storage refuses every write. *)
Definition refusesAll (w : World) : Prop :=
  forall value, accepts (localStorage w) value = false.

Definition notSpace (c : ascii) : bool := negb (Js.isWhiteSpace c).

(** A cell written without quotes that the importer reads as it is: not
    empty, and made of characters other than quote, comma and white
    space. *)
Definition bareCell (cell : string) : bool :=
  Js.truthy cell && every isBare cell.

(** The field bag the importer builds from the cells of a line. *)
Definition cellsData (cells : list string) : Data.t :=
  Data.mk (nth 0 cells EmptyString) (nth 1 cells EmptyString)
          (nth 2 cells EmptyString) (nth 3 cells EmptyString)
          (nth 4 cells EmptyString) (nth 5 cells EmptyString)
          (nth 6 cells EmptyString) (nth 7 cells EmptyString).
(** How an import step relates the state before and after: the
    collection grew at the front, the count went up by no more than it
    grew, by as much when every write goes through and not at all when
    none does. *)
Definition importStep (st st' : World * nat) : Prop :=
  let '(w, n) := st in
  let '(w', n') := st' in
  accepts (localStorage w') = accepts (localStorage w)
  /\ n <= n'
  /\ (exists added, jobs (app w') = added ++ jobs (app w)
                    /\ n' - n <= List.length added
                    /\ (acceptsAll w -> n' - n = List.length added))
  /\ (refusesAll w -> n' = n /\ jobsItem (localStorage w') = jobsItem (localStorage w)).

(** A text of white space only (the empty text is one). *)
Definition blank (s : string) : bool := every Js.isWhiteSpace s.

(** The form would be turned down: company or role blank, another
    required field empty, or a link that is not a URL. *)
Definition turnedDown (parses : string -> bool) (form : Data.t) : Prop :=
  blank (Data.company form) = true \/ blank (Data.role form) = true
  \/ Data.jobType form = EmptyString \/ Data.location form = EmptyString
  \/ Data.applicationDate form = EmptyString \/ Data.status form = EmptyString
  \/ (Js.truthy (Js.trim (Data.jobLink form)) = true
      /\ parses (Js.trim (Data.jobLink form)) = false).

(** What the loop of [importFromCSV] reads off one line: the field bag it
    hands to [addJob], or nothing when it skips the line (blank, no
    match, fewer than six cells). *)
Definition lineData (rawLine : string) : option Data.t :=
  let line := Js.trim rawLine in
  if negb (Js.truthy line) then None
  else
    match matchFields line with
    | None => None
    | Some matches =>
        if (List.length matches <? 6)%nat then None
        else Some (cellsData (map stripQuotes matches))
    end.

(** The field bags an import reads off a text, in the order of the lines;
    the first line is not read. *)
Definition dataRead (text : string) : list Data.t :=
  match Js.split Js.newline text with
  | _ :: lines =>
      flat_map (fun line => match lineData line with
                            | Some data => [data]
                            | None => []
                            end) lines
  | [] => []
  end.

(** The eight fields of the record [createJob] makes of a field bag. *)
Definition stored (data : Data.t) : Data.t :=
  Data.mk (sanitizeInput (Data.company data)) (sanitizeInput (Data.role data))
          (Data.jobType data) (Data.location data)
          (Data.applicationDate data) (Data.status data)
          (orEmpty (Data.jobLink data))
          (orEmpty (sanitizeInput (Data.notes data))).

(* ================================================================== *)
(** ** More sample worlds *)
(* ================================================================== *)

Module Case.

(** The stocked store with the oldest applications first. *)
Definition oldestFirst : World := handleSort "oldest" Sample.stocked.

(** The stocked store with the record [b] open in the form. *)
Definition editing : World := handleEditJob "b" Sample.stocked.

(** A form with a company of white space only. *)
Definition blankCompany : Data.t :=
  Data.mk "   " "Tester" "Contract" "Onsite" "2026-01-20" "Offer"
          EmptyString EmptyString.

(** A form with white space around company and notes, and markup. *)
Definition padded : Data.t :=
  Data.mk "  Stark <b>Industries</b> " "Engineer" "Full-time" "Hybrid"
          "2026-01-25" "Interview" " https://stark.example/jobs " " call back ".

Definition anyURL (url : string) : bool := true.

(** What a user may do in one sitting. *)
Definition session : list Command :=
  [Add Sample.google; Add Sample.acme; SetStatus "Offer"; Search "ac";
   ConfirmDelete (Some "b"); OpenAdd; Submit anyURL padded; Undo;
   Update "a" Sample.initech; SetSort "oldest"; ConfirmDelete (Some "a");
   ConfirmDelete (Some "c"); Elapse 3%positive; Undo].

Definition bareCells : list string :=
  ["Acme"; "Tester"; "Contract"; "Onsite"; "2026-01-20"; "Offer"].

(** A file of a header and two lines without quotes. *)
Definition bareFile : string :=
  ("Company,Role,Job Type,Location,Application Date,Status"
   ++ String Js.newline
        ("Acme,Tester,Contract,Onsite,2026-01-20,Offer"
         ++ String Js.newline "Globex,Engineer,Full-time,Remote,2026-01-22,Applied"))%string.


Definition january10 : Job :=
  Sample.job "a" (Data.mk "Acme" "Tester" "Contract" "Onsite" "2026-01-10"
                          "Applied" EmptyString EmptyString).

Definition noDate : Job :=
  Sample.job "b" (Data.mk "Hooli" "PM" "Contract" "Remote" "soon"
                          "Applied" EmptyString EmptyString).

Definition january30 : Job :=
  Sample.job "d" (Data.mk "Globex" "Engineer" "Full-time" "Remote" "2026-01-30"
                          "Applied" EmptyString EmptyString).

(** A store in which the second record has a text that is no date where
    the date goes, as an imported file can bring in. *)
Definition undated : World :=
  mkWorld (mkAppState [january10; noDate; january30] [] None None None
                      Filters.initial)
          (mkLocalStorage (Some [january10; noDate; january30]) (fun _ => true))
          [] 1%positive Sample.spread 0 Sample.noon Sample.utc.

(** A file whose lines give the records of [undated] once imported. *)
Definition undatedFile : string :=
  ("Company,Role,Job Type,Location,Application Date,Status"
   ++ String Js.newline
        ("Globex,Engineer,Full-time,Remote,2026-01-30,Applied"
         ++ String Js.newline
              ("Hooli,PM,Contract,Remote,soon,Applied"
               ++ String Js.newline
                    "Acme,Tester,Contract,Onsite,2026-01-10,Applied")))%string.

End Case.

(** No field of the record that goes into the file holds a line feed. *)
Definition oneLine (job : Job) : Prop :=
  Forall (fun cell => every notNewline cell = true) (csvRow job).

(* ================================================================== *)
(** ** Arrays: locating, removing and reinserting an element *)
(* ================================================================== *)

Section ArrayFacts.
Context {A : Type}.
Implicit Types (p : A -> bool) (l : list A).

Lemma findIndex_Some p l i :
  Js.findIndex p l = Some i ->
  exists x, nth_error l i = Some x /\ p x = true /\ Js.find p l = Some x.
Proof.
  revert i; induction l as [|y l IH]; intros i; simpl; [discriminate|].
  destruct (p y) eqn:Hy.
  - intros [= <-]. exists y; auto.
  - destruct (Js.findIndex p l) as [k|]; simpl; [|discriminate].
    intros [= <-]. destruct (IH k eq_refl) as (x & H1 & H2 & H3).
    exists x; auto.
Qed.

Lemma findIndex_None p l :
  Js.findIndex p l = None -> forall x, In x l -> p x = false.
Proof.
  induction l as [|y l IH]; simpl; [tauto|].
  destruct (p y) eqn:Hy; [discriminate|].
  destruct (Js.findIndex p l); simpl; [discriminate|].
  intros _ x [<-|Hx]; auto.
Qed.

Lemma findIndex_present p l x :
  In x l -> p x = true -> exists i, Js.findIndex p l = Some i.
Proof.
  intros Hin Hp. destruct (Js.findIndex p l) as [i|] eqn:E; [eauto|].
  rewrite (findIndex_None _ _ E x Hin) in Hp; discriminate.
Qed.

Lemma splice_out_nth l i x :
  nth_error l i = Some x ->
  Js.splice_out i l = ([x], firstn i l ++ skipn (S i) l)
  /\ l = firstn i l ++ x :: skipn (S i) l.
Proof.
  revert i; induction l as [|y l IH]; intros [|i]; simpl; try discriminate.
  - intros [= ->]. auto.
  - intros H. destruct (IH i H) as [H1 H2]. unfold Js.splice_out in *.
    simpl. split.
    + injection H1 as H1. now rewrite H1.
    + f_equal. exact H2.
Qed.

Lemma splice_in_out l i x :
  nth_error l i = Some x ->
  Js.splice_in i x (firstn i l ++ skipn (S i) l) = l.
Proof.
  intros H. destruct (splice_out_nth l i x H) as [_ E].
  assert (Hlen : List.length (firstn i l) = i).
  { apply firstn_length_le. apply Nat.lt_le_incl, nth_error_Some. congruence. }
  unfold Js.splice_in.
  rewrite firstn_app, skipn_app, Hlen, Nat.sub_diag. simpl.
  rewrite firstn_firstn, Nat.min_id.
  rewrite (skipn_all2 (firstn i l)) by (rewrite Hlen; auto).
  rewrite app_nil_r. simpl. symmetry; exact E.
Qed.

Lemma removed_Permutation l i x :
  nth_error l i = Some x ->
  Permutation (x :: firstn i l ++ skipn (S i) l) l.
Proof.
  intros H. destruct (splice_out_nth l i x H) as [_ E].
  rewrite E at 3. apply Permutation_middle.
Qed.

End ArrayFacts.

Lemma present_findIndex (jobId : string) (js : list Job) :
  In jobId (map id js) ->
  exists index x,
    Js.findIndex (fun job => String.eqb (id job) jobId) js = Some index
    /\ nth_error js index = Some x /\ id x = jobId
    /\ Js.find (fun job => String.eqb (id job) jobId) js = Some x.
Proof.
  intros H. apply in_map_iff in H. destruct H as (x & Hx & Hin).
  destruct (findIndex_present (fun job => String.eqb (id job) jobId) js x Hin)
    as [i Hi]; [now apply String.eqb_eq|].
  destruct (findIndex_Some _ _ _ Hi) as (y & H1 & H2 & H3).
  exists i, y. repeat split; auto. now apply String.eqb_eq.
Qed.

Lemma absent_findIndex (jobId : string) (js : list Job) :
  ~ In jobId (map id js) ->
  Js.findIndex (fun job => String.eqb (id job) jobId) js = None.
Proof.
  intros H.
  destruct (Js.findIndex (fun job => String.eqb (id job) jobId) js) as [i|] eqn:E;
    [|reflexivity].
  destruct (findIndex_Some _ _ _ E) as (x & H1 & H2 & _).
  exfalso; apply H. apply in_map_iff. exists x. split.
  - now apply String.eqb_eq.
  - eapply nth_error_In; eauto.
Qed.

Ltac div_lia := Z.to_euclidean_division_equations; lia.

Ltac open_world w :=
  let a := fresh "a" in
  destruct w as [a ? ? ? ? ? ? ?]; destruct a; simpl in *.

(* ================================================================== *)
(** ** Record store *)
(* ================================================================== *)

(** C4. When the id is present and the write of the collection without the
    record fails, [deleteJob] puts the record back at the index it was
    taken from: the world is exactly what it was, element for element, and
    the caller gets [null]. *)
Theorem deleteJob_rollback (w : World) (jobId : string) :
  In jobId (ids w) ->
  accepts (localStorage w) (afterRemoval jobId (jobs (app w))) = false ->
  deleteJob jobId w = (w, None)
  /\ jobs (app (fst (deleteJob jobId w))) = jobs (app w).
Proof.
  intros Hin Hfail.
  assert (E : deleteJob jobId w = (w, None)); [|rewrite E; auto].
  destruct (present_findIndex jobId _ Hin) as (i & x & Hi & Hn & _ & _).
  unfold deleteJob, afterRemoval in *. rewrite Hi in *.
  destruct (splice_out_nth _ _ _ Hn) as [Hs _]. rewrite Hs in *.
  pose proof (splice_in_out _ _ _ Hn) as Hback.
  remember (firstn i (jobs (app w)) ++ skipn (S i) (jobs (app w))) as rest.
  simpl in Hfail. unfold saveJobs, Storage.set. simpl. rewrite Hfail. simpl.
  rewrite Hback. open_world w. reflexivity.
Qed.

Lemma deleteJob_rollback_witness :
  deleteJob "b" Sample.full = (Sample.full, None)
  /\ jobs (app (fst (deleteJob "b" Sample.full))) = jobs (app Sample.full).
Proof.
  apply (deleteJob_rollback Sample.full "b").
  - simpl. auto.
  - reflexivity.
Defined.

Lemma createJob_frame (w : World) (jobData : Data.t) :
  app (fst (createJob jobData w)) = app w
  /\ localStorage (fst (createJob jobData w)) = localStorage w
  /\ timers (fst (createJob jobData w)) = timers w
  /\ id (snd (createJob jobData w)) = snd (generateUUID w)
  /\ content (snd (createJob jobData w))
     = Data.mk (sanitizeInput (Data.company jobData))
               (sanitizeInput (Data.role jobData))
               (Data.jobType jobData) (Data.location jobData)
               (Data.applicationDate jobData) (Data.status jobData)
               (orEmpty (Data.jobLink jobData))
               (orEmpty (sanitizeInput (Data.notes jobData))).
Proof.
  unfold createJob, generateUUID.
  destruct (uuidFill uuidTemplate (entropy w) (drawn w)) as [s k].
  simpl. auto.
Qed.

(** What [addJob] leaves in memory does not depend on the write. *)
Lemma addJob_jobs (w : World) (jobData : Data.t) :
  jobs (app (fst (addJob jobData w))) = snd (createJob jobData w) :: jobs (app w).
Proof.
  unfold addJob. destruct (createJob_frame w jobData) as (Ha & _).
  destruct (createJob jobData w) as [w1 job]. simpl in *.
  unfold saveJobs, Storage.set. simpl.
  destruct (accepts _ _); simpl; now rewrite Ha.
Qed.

(** C9. When the write fails, [addJob] returns [null], yet the record it
    created stays at the front of the collection in memory; what is
    persisted is not touched, so a store that was in step with it no
    longer is. *)
Theorem addJob_failed_save_keeps_record (w : World) (jobData : Data.t) :
  let job := snd (createJob jobData w) in
  accepts (localStorage w) (job :: jobs (app w)) = false ->
  snd (addJob jobData w) = None
  /\ jobs (app (fst (addJob jobData w))) = job :: jobs (app w)
  /\ jobsItem (localStorage (fst (addJob jobData w))) = jobsItem (localStorage w)
  /\ (jobsItem (localStorage w) = Some (jobs (app w)) ->
      jobsItem (localStorage (fst (addJob jobData w)))
      <> Some (jobs (app (fst (addJob jobData w))))).
Proof.
  intros job Hfail.
  assert (Hmem := addJob_jobs w jobData). fold job in Hmem.
  assert (Hres : snd (addJob jobData w) = None
                 /\ jobsItem (localStorage (fst (addJob jobData w)))
                    = jobsItem (localStorage w)).
  { subst job. unfold addJob.
    destruct (createJob_frame w jobData) as (Ha & Hl & _).
    destruct (createJob jobData w) as [w1 j]. simpl in *.
    unfold saveJobs, Storage.set, Js.unshift. simpl. rewrite Ha, Hl, Hfail.
    simpl. auto. }
  destruct Hres as [Hnull Hdisk]. repeat split; auto.
  rewrite Hdisk, Hmem. intros Hsync. rewrite Hsync. intros [= H].
  apply (f_equal (@List.length Job)) in H. simpl in H. lia.
Qed.

Lemma addJob_failed_save_keeps_record_witness :
  snd (addJob Sample.acme Sample.full) = None
  /\ jobs (app (fst (addJob Sample.acme Sample.full)))
     = snd (createJob Sample.acme Sample.full) :: jobs (app Sample.full)
  /\ jobsItem (localStorage (fst (addJob Sample.acme Sample.full)))
     = jobsItem (localStorage Sample.full)
  /\ (jobsItem (localStorage Sample.full) = Some (jobs (app Sample.full)) ->
      jobsItem (localStorage (fst (addJob Sample.acme Sample.full)))
      <> Some (jobs (app (fst (addJob Sample.acme Sample.full))))).
Proof.
  apply (addJob_failed_save_keeps_record Sample.full Sample.acme).
  reflexivity.
Defined.

(** C7 (as the code has it). An id that is not in the collection leaves
    the whole world as it was, and [updateJob] returns [false]. *)
Theorem updateJob_not_found (w : World) (jobId : string) (jobData : Data.t) :
  ~ In jobId (ids w) ->
  updateJob jobId jobData w = (w, false).
Proof.
  intros H. unfold updateJob.
  now rewrite (absent_findIndex jobId _ H).
Qed.

Lemma updateJob_not_found_witness :
  updateJob "zz" Sample.acme Sample.stocked = (Sample.stocked, false).
Proof.
  apply (updateJob_not_found Sample.stocked "zz" Sample.acme).
  simpl. intros [H|[H|[H|[]]]]; discriminate H.
Defined.

(** C7 as stated does not hold: the answer for an id that is not there is
    the very answer for an id that was found, changed in memory and could
    not be saved. *)
Lemma updateJob_not_found_not_distinct :
  ~ In "zz" (ids Sample.full)
  /\ In "b" (ids Sample.full)
  /\ jobs (app (fst (updateJob "b" Sample.google Sample.full)))
     <> jobs (app Sample.full)
  /\ jobsItem (localStorage (fst (updateJob "b" Sample.google Sample.full)))
     = jobsItem (localStorage Sample.full)
  /\ snd (updateJob "zz" Sample.google Sample.full)
     = snd (updateJob "b" Sample.google Sample.full).
Proof.
  repeat split.
  - simpl. intros [H|[H|[H|[]]]]; discriminate H.
  - simpl. auto.
  - vm_compute. discriminate.
Qed.

(* ================================================================== *)
(** ** Delete with undo *)
(* ================================================================== *)

Lemma clearTimeout_not_pending (h : positive) (w : World) :
  ~ In h (pendingHandles (clearTimeout h w)).
Proof.
  unfold pendingHandles, clearTimeout. simpl.
  intros H. apply in_map_iff in H. destruct H as (t & Ht & Hin).
  apply filter_In in Hin. destruct Hin as [_ Hneq].
  rewrite Ht, Pos.eqb_refl in Hneq. discriminate.
Qed.

(** [handleUndoDelete] spelled out on a world with a record in the slot. *)
Lemma handleUndoDelete_pending (w : World) (deleted : Job) :
  deletedJob (app w) = Some deleted ->
  let js := deleted :: jobs (app w) in
  app (handleUndoDelete w)
  = mkAppState js (filterJobs (filters (app w)) js)
               (currentEditingJobId (app w)) None (deleteTimeout (app w))
               (filters (app w))
  /\ timers (handleUndoDelete w)
     = match deleteTimeout (app w) with
       | Some h => filter (fun t => negb (Pos.eqb (handle t) h)) (timers w)
       | None => timers w
       end
  /\ localStorage (handleUndoDelete w) = fst (Storage.set js (localStorage w)).
Proof.
  intros H. unfold handleUndoDelete. rewrite H.
  unfold saveJobs, Js.unshift. simpl.
  destruct (Storage.set _ _) as [ls ok]. simpl.
  destruct (deleteTimeout (app w)) eqn:Eh; simpl; rewrite ?Eh; auto.
Qed.

(** C10. With a record in the slot, [handleUndoDelete] puts it at the front
    of the collection, takes the timer off the queue and empties the slot;
    it returns nothing, and the application state and the timers it leaves
    are the same whatever the storage does with the write. *)
Theorem handleUndoDelete_ignores_save (w : World) (deleted : Job) :
  deletedJob (app w) = Some deleted ->
  jobs (app (handleUndoDelete w)) = deleted :: jobs (app w)
  /\ deletedJob (app (handleUndoDelete w)) = None
  /\ undoState (handleUndoDelete w) = Idle
  /\ (forall h, deleteTimeout (app w) = Some h ->
                ~ In h (pendingHandles (handleUndoDelete w)))
  /\ (forall ls : LocalStorage,
        app (handleUndoDelete (withLocalStorage w ls)) = app (handleUndoDelete w)
        /\ timers (handleUndoDelete (withLocalStorage w ls))
           = timers (handleUndoDelete w)).
Proof.
  intros H.
  destruct (handleUndoDelete_pending w deleted H) as (Ha & Ht & _).
  unfold undoState. rewrite Ha. simpl. repeat split; auto.
  - intros h Hh. unfold pendingHandles. rewrite Ht, Hh.
    apply (clearTimeout_not_pending h w).
  - destruct (handleUndoDelete_pending (withLocalStorage w ls) deleted H)
      as (Ha' & _ & _). rewrite Ha'. reflexivity.
  - destruct (handleUndoDelete_pending (withLocalStorage w ls) deleted H)
      as (_ & Ht' & _). rewrite Ht', Ht. reflexivity.
Qed.

Lemma handleUndoDelete_ignores_save_witness :
  jobs (app (handleUndoDelete Sample.pending))
  = Sample.job "b" Sample.acme :: jobs (app Sample.pending)
  /\ deletedJob (app (handleUndoDelete Sample.pending)) = None
  /\ undoState (handleUndoDelete Sample.pending) = Idle
  /\ (forall h, deleteTimeout (app Sample.pending) = Some h ->
                ~ In h (pendingHandles (handleUndoDelete Sample.pending)))
  /\ (forall ls : LocalStorage,
        app (handleUndoDelete (withLocalStorage Sample.pending ls))
        = app (handleUndoDelete Sample.pending)
        /\ timers (handleUndoDelete (withLocalStorage Sample.pending ls))
           = timers (handleUndoDelete Sample.pending)).
Proof.
  apply (handleUndoDelete_ignores_save Sample.pending (Sample.job "b" Sample.acme)).
  reflexivity.
Defined.

(** With nothing in the slot [handleUndoDelete] does nothing. *)
Lemma handleUndoDelete_idle (w : World) :
  undoState w = Idle -> handleUndoDelete w = w.
Proof.
  unfold undoState, handleUndoDelete.
  destruct (deletedJob (app w)); [discriminate|reflexivity].
Qed.

(** X16. Once the timer has elapsed the slot is empty, the collection is what
    it was, and an undo changes nothing. *)
Lemma undo_after_timeout (w : World) (h : positive) :
  In h (pendingHandles w) ->
  undoState (fire h w) = Idle
  /\ jobs (app (fire h w)) = jobs (app w)
  /\ handleUndoDelete (fire h w) = fire h w.
Proof.
  intros Hin.
  assert (E : exists t, Js.find (fun t => Pos.eqb (handle t) h) (timers w) = Some t).
  { unfold pendingHandles in Hin. apply in_map_iff in Hin.
    destruct Hin as (t & Ht & Hin).
    destruct (findIndex_present (fun t => Pos.eqb (handle t) h) (timers w) t Hin)
      as [i Hi]; [now apply Pos.eqb_eq|].
    destruct (findIndex_Some _ _ _ Hi) as (t' & _ & _ & Hf). eauto. }
  destruct E as [t Ht].
  assert (Hidle : undoState (fire h w) = Idle
                  /\ jobs (app (fire h w)) = jobs (app w)).
  { unfold fire. rewrite Ht. destruct (action t). split; reflexivity. }
  destruct Hidle as [Hidle Hjobs]. repeat split; auto.
  now apply handleUndoDelete_idle.
Qed.

(** [deleteJob] when the record is there and the write goes through. *)
Lemma deleteJob_saved (w : World) (jobId : string) :
  In jobId (ids w) ->
  accepts (localStorage w) (afterRemoval jobId (jobs (app w))) = true ->
  exists removed w1,
    deleteJob jobId w = (w1, Some removed)
    /\ Js.find (fun job => String.eqb (id job) jobId) (jobs (app w)) = Some removed
    /\ id removed = jobId
    /\ jobs (app w1) = afterRemoval jobId (jobs (app w))
    /\ deletedJob (app w1) = deletedJob (app w)
    /\ Permutation (removed :: jobs (app w1)) (jobs (app w)).
Proof.
  intros Hin Hok.
  destruct (present_findIndex jobId _ Hin) as (i & x & Hi & Hn & Hid & Hf).
  unfold deleteJob, afterRemoval in *. rewrite Hi in *.
  destruct (splice_out_nth _ _ _ Hn) as [Hs _]. rewrite Hs in *.
  pose proof (removed_Permutation _ _ _ Hn) as Hperm.
  remember (firstn i (jobs (app w)) ++ skipn (S i) (jobs (app w))) as rest.
  simpl in Hok. unfold saveJobs, Storage.set. simpl. rewrite Hok.
  eexists; eexists. split; [reflexivity|]. simpl. auto.
Qed.

(** C1. When the id is in the collection and the write of the collection
    without it goes through, confirming the deletion and then undoing it
    at once brings back the very record that was removed (the first one
    with that id, every field as it was), at the front of what was left;
    the collection then has the same members as before the removal. *)
Theorem remove_then_undo (w : World) (jobId : string) :
  Js.truthy jobId = true ->
  In jobId (ids w) ->
  accepts (localStorage w) (afterRemoval jobId (jobs (app w))) = true ->
  exists removed,
    snd (deleteJob jobId w) = Some removed
    /\ Js.find (fun job => String.eqb (id job) jobId) (jobs (app w)) = Some removed
    /\ In removed (jobs (app w))
    /\ let w' := handleUndoDelete (handleConfirmDelete (Some jobId) w) in
       jobs (app w') = removed :: afterRemoval jobId (jobs (app w))
       /\ Permutation (jobs (app w')) (jobs (app w))
       /\ (forall job, In job (jobs (app w')) <-> In job (jobs (app w)))
       /\ undoState w' = Idle.
Proof.
  intros Hid Hin Hok.
  destruct (deleteJob_saved w jobId Hin Hok)
    as (removed & w1 & Hdel & Hfind & _ & Hjobs & _ & Hperm).
  exists removed. rewrite Hdel. cbn [snd].
  split; [reflexivity|]. split; [exact Hfind|]. split.
  - eapply Permutation_in; [exact Hperm|]. simpl; auto.
  - cbv zeta.
    assert (Hc : jobs (app (handleConfirmDelete (Some jobId) w)) = jobs (app w1)
                 /\ deletedJob (app (handleConfirmDelete (Some jobId) w))
                    = Some removed).
    { unfold handleConfirmDelete. rewrite Hid, Hdel. simpl.
      destruct (deleteTimeout (app w1)); simpl; auto. }
    destruct Hc as [Hc1 Hc2].
    destruct (handleUndoDelete_pending _ removed Hc2) as (Ha & _).
    assert (Hres : jobs (app (handleUndoDelete (handleConfirmDelete (Some jobId) w)))
                   = removed :: afterRemoval jobId (jobs (app w))).
    { rewrite Ha. cbn [jobs]. now rewrite Hc1, Hjobs. }
    assert (Hp : Permutation
                   (jobs (app (handleUndoDelete (handleConfirmDelete (Some jobId) w))))
                   (jobs (app w))).
    { rewrite Hres, <- Hjobs. exact Hperm. }
    split; [exact Hres|]. split; [exact Hp|]. split.
    + intros job. split; intros Hj.
      * eapply Permutation_in; eauto.
      * eapply Permutation_in; [apply Permutation_sym|]; eauto.
    + unfold undoState. rewrite Ha. reflexivity.
Qed.

Lemma remove_then_undo_witness :
  exists removed,
    snd (deleteJob "b" Sample.stocked) = Some removed
    /\ Js.find (fun job => String.eqb (id job) "b") (jobs (app Sample.stocked))
       = Some removed
    /\ In removed (jobs (app Sample.stocked))
    /\ let w' := handleUndoDelete (handleConfirmDelete (Some "b") Sample.stocked) in
       jobs (app w') = removed :: afterRemoval "b" (jobs (app Sample.stocked))
       /\ Permutation (jobs (app w')) (jobs (app Sample.stocked))
       /\ (forall job, In job (jobs (app w')) <-> In job (jobs (app Sample.stocked)))
       /\ undoState w' = Idle.
Proof.
  apply (remove_then_undo Sample.stocked "b").
  - reflexivity.
  - simpl. auto.
  - reflexivity.
Defined.

(* ================================================================== *)
(** ** Identifiers *)
(* ================================================================== *)

(** C2 as stated does not hold: nothing in [addJob] looks at the ids in
    use.  When [Math.random] repeats itself the second record gets the id
    of the first. *)
Lemma addJob_id_collision :
  let w1 := fst (addJob Sample.google Sample.stuck) in
  NoDup (ids w1)
  /\ In (id (snd (createJob Sample.acme w1))) (ids w1)
  /\ ~ NoDup (ids (fst (addJob Sample.acme w1))).
Proof.
  cbv zeta. split; [|split].
  - vm_compute. constructor; [intros []|constructor].
  - vm_compute. auto.
  - vm_compute. intros H. inversion H as [|x l Hnot _]; subst.
    apply Hnot. left; reflexivity.
Qed.

(** C2 (as the code has it). [addJob] gives the new record the id that
    [generateUUID] draws, whatever the collection holds; the ids stay
    pairwise distinct whenever that id is not yet in use. *)
Theorem addJob_fresh_id_keeps_unique (w : World) (jobData : Data.t) :
  NoDup (ids w) ->
  ~ In (snd (generateUUID w)) (ids w) ->
  ids (fst (addJob jobData w)) = snd (generateUUID w) :: ids w
  /\ NoDup (ids (fst (addJob jobData w))).
Proof.
  intros Hnd Hfresh.
  assert (E : ids (fst (addJob jobData w)) = snd (generateUUID w) :: ids w).
  { unfold ids. rewrite addJob_jobs. cbn [map].
    destruct (createJob_frame w jobData) as (_ & _ & _ & Hid & _).
    now rewrite Hid. }
  split; [exact E|]. rewrite E. now constructor.
Qed.

Lemma addJob_fresh_id_keeps_unique_witness :
  ids (fst (addJob Sample.acme Sample.stocked))
  = snd (generateUUID Sample.stocked) :: ids Sample.stocked
  /\ NoDup (ids (fst (addJob Sample.acme Sample.stocked))).
Proof.
  apply (addJob_fresh_id_keeps_unique Sample.stocked Sample.acme).
  - simpl. repeat constructor; simpl; intuition discriminate.
  - vm_compute. intuition discriminate.
Defined.

(* ================================================================== *)
(** ** Analytics: status breakdown *)
(* ================================================================== *)

Lemma breakdownStep_counts (job : Job) (a i o r g : nat) :
  breakdownStep (breakdownOf a i o r g) job
  = breakdownOf (countStatus "Applied" [job] + a)
                (countStatus "Interview" [job] + i)
                (countStatus "Offer" [job] + o)
                (countStatus "Rejected" [job] + r)
                (countStatus "Ghosted" [job] + g).
Proof.
  unfold countStatus. cbn [filter].
  destruct (String.eqb_spec (status job) "Applied") as [E|N1];
    [unfold breakdownStep; rewrite E; reflexivity|].
  destruct (String.eqb_spec (status job) "Interview") as [E|N2];
    [unfold breakdownStep; rewrite E; reflexivity|].
  destruct (String.eqb_spec (status job) "Offer") as [E|N3];
    [unfold breakdownStep; rewrite E; reflexivity|].
  destruct (String.eqb_spec (status job) "Rejected") as [E|N4];
    [unfold breakdownStep; rewrite E; reflexivity|].
  destruct (String.eqb_spec (status job) "Ghosted") as [E|N5];
    [unfold breakdownStep; rewrite E; reflexivity|].
  assert (F : forall s, status job <> s -> String.eqb s (status job) = false)
    by (intros; apply String.eqb_neq; congruence).
  unfold breakdownStep, Js.hasOwnProperty, breakdownOf. cbn [existsb fst].
  rewrite !F by assumption. reflexivity.
Qed.

Lemma countStatus_cons (s : string) (job : Job) (js : list Job) :
  countStatus s (job :: js) = countStatus s [job] + countStatus s js.
Proof.
  unfold countStatus. simpl. destruct (String.eqb (status job) s); reflexivity.
Qed.

Lemma breakdown_fold (js : list Job) (a i o r g : nat) :
  fold_left breakdownStep js (breakdownOf a i o r g)
  = breakdownOf (countStatus "Applied" js + a)
                (countStatus "Interview" js + i)
                (countStatus "Offer" js + o)
                (countStatus "Rejected" js + r)
                (countStatus "Ghosted" js + g).
Proof.
  revert a i o r g. induction js as [|job js IH]; intros; [reflexivity|].
  cbn [fold_left]. rewrite breakdownStep_counts, IH.
  rewrite !(countStatus_cons _ job js).
  unfold breakdownOf. repeat (apply f_equal2; [apply f_equal; lia|]). reflexivity.
Qed.

Lemma calculateAnalytics_counts (w : World) :
  calculateAnalytics w
  = (List.length (jobs (app w)),
     map (fun s => (s, countStatus s (jobs (app w)))) knownStatuses).
Proof.
  unfold calculateAnalytics. f_equal.
  change emptyBreakdown with (breakdownOf 0 0 0 0 0).
  change (fun sb job => if Js.hasOwnProperty sb (status job)
                        then increment sb (status job) else sb)
    with breakdownStep.
  rewrite breakdown_fold. unfold breakdownOf. simpl.
  now rewrite !Nat.add_0_r.
Qed.

Lemma countStatus_pos (s : string) (js : list Job) :
  0 < countStatus s js <-> exists job, In job js /\ status job = s.
Proof.
  unfold countStatus. split.
  - intros H. destruct (filter _ js) as [|job l] eqn:E; [simpl in H; lia|].
    assert (Hin : In job (filter (fun job => String.eqb (status job) s) js))
      by (rewrite E; left; reflexivity).
    apply filter_In in Hin. destruct Hin as [Hin Hs].
    exists job. split; auto. now apply String.eqb_eq.
  - intros (job & Hin & Hs).
    assert (Hf : In job (filter (fun job => String.eqb (status job) s) js)).
    { apply filter_In. split; auto. now apply String.eqb_eq. }
    destruct (filter _ js); [destruct Hf|simpl; lia].
Qed.

(** C8. [calculateAnalytics] counts every record in [total] and, in the
    breakdown, the records of each of the five statuses and nothing else:
    a record with another status changes no count but adds one to
    [total].  On the empty collection every count is zero and [hasData]
    is false; [hasData] is true exactly when some record has one of the
    five statuses. *)
Theorem calculateAnalytics_breakdown (w : World) :
  fst (calculateAnalytics w) = List.length (jobs (app w))
  /\ snd (calculateAnalytics w)
     = map (fun s => (s, countStatus s (jobs (app w)))) knownStatuses
  /\ (forall job, ~ In (status job) knownStatuses ->
        snd (calculateAnalytics (withJobs w (job :: jobs (app w))))
        = snd (calculateAnalytics w)
        /\ fst (calculateAnalytics (withJobs w (job :: jobs (app w))))
           = S (fst (calculateAnalytics w)))
  /\ (jobs (app w) = [] ->
        snd (calculateAnalytics w) = emptyBreakdown
        /\ hasData (snd (calculateAnalytics w)) = false)
  /\ (hasData (snd (calculateAnalytics w)) = true <->
      exists job, In job (jobs (app w)) /\ In (status job) knownStatuses).
Proof.
  rewrite calculateAnalytics_counts. cbn [fst snd].
  split; [reflexivity|]. split; [reflexivity|]. split; [|split].
  - intros job Hnot. rewrite calculateAnalytics_counts. cbn [fst snd].
    simpl jobs. split; [|reflexivity].
    apply map_ext_in. intros s Hs. f_equal.
    rewrite countStatus_cons. unfold countStatus at 1. simpl.
    destruct (String.eqb_spec (status job) s) as [E|_]; [|reflexivity].
    exfalso; apply Hnot. now rewrite E.
  - intros E. rewrite E. split; reflexivity.
  - unfold hasData, Js.values. rewrite map_map. cbn [snd].
    rewrite existsb_exists. split.
    + intros (n & Hn & Hpos). apply in_map_iff in Hn.
      destruct Hn as (s & <- & Hs). apply Nat.ltb_lt in Hpos.
      apply countStatus_pos in Hpos. destruct Hpos as (job & Hin & E).
      exists job. split; auto. now rewrite E.
    + intros (job & Hin & Hs). exists (countStatus (status job) (jobs (app w))).
      split.
      * apply in_map_iff. exists (status job). auto.
      * apply Nat.ltb_lt. apply countStatus_pos. eauto.
Qed.

(* ================================================================== *)
(** ** Query engine: sorting *)
(* ================================================================== *)

Section SortFacts.
Context {A : Type}.
Variable key : A -> Z.

(** Larger keys first. *)
Let cmp (a b : A) : Z := (key b - key a)%Z.
Let before (a b : A) : Prop := (key b <= key a)%Z.

Lemma sort_insert_Permutation (c : A -> A -> Z) (x : A) (l : list A) :
  Permutation (x :: l) (Js.sort_insert c x l).
Proof.
  induction l as [|y l IH]; simpl; [reflexivity|].
  destruct (c x y <=? 0)%Z; [reflexivity|].
  rewrite perm_swap. now constructor.
Qed.

Lemma sort_Permutation (c : A -> A -> Z) (l : list A) :
  Permutation l (Js.sort c l).
Proof.
  induction l as [|x l IH]; simpl; [reflexivity|].
  rewrite <- sort_insert_Permutation. now constructor.
Qed.

Lemma sort_insert_ext (c c' : A -> A -> Z) (x : A) (l : list A) :
  (forall y, In y l -> c x y = c' x y) ->
  Js.sort_insert c x l = Js.sort_insert c' x l.
Proof.
  induction l as [|y l IH]; intros H; simpl; [reflexivity|].
  rewrite (H y) by (left; reflexivity).
  destruct (c' x y <=? 0)%Z; [reflexivity|].
  f_equal. apply IH. intros z Hz. apply H. now right.
Qed.

Lemma sort_ext (c c' : A -> A -> Z) (l : list A) :
  (forall a b, In a l -> In b l -> c a b = c' a b) ->
  Js.sort c l = Js.sort c' l.
Proof.
  induction l as [|x l IH]; intros H; simpl; [reflexivity|].
  rewrite IH by (intros; apply H; now right).
  apply sort_insert_ext. intros y Hy. apply H; [now left|right].
  eapply Permutation_in; [apply Permutation_sym, sort_Permutation|exact Hy].
Qed.

Lemma sort_insert_sorted (x : A) (l : list A) :
  StronglySorted before l -> StronglySorted before (Js.sort_insert cmp x l).
Proof.
  induction 1 as [|y l Hs IH Hall]; simpl.
  - repeat constructor.
  - unfold cmp at 1. destruct (Z.leb_spec (key y - key x) 0) as [Hle|Hgt].
    + constructor; [now constructor|].
      constructor; [unfold before; lia|].
      eapply Forall_impl; [|exact Hall]. unfold before. intros; lia.
    + constructor; [exact IH|].
      eapply Permutation_Forall; [apply sort_insert_Permutation|].
      constructor; [unfold before; lia|exact Hall].
Qed.

Lemma sort_sorted (l : list A) : StronglySorted before (Js.sort cmp l).
Proof.
  induction l as [|x l IH]; simpl; [constructor|].
  now apply sort_insert_sorted.
Qed.

Lemma sort_insert_stable (t : Z) (x : A) (l : list A) :
  filter (fun a => key a =? t)%Z (Js.sort_insert cmp x l)
  = filter (fun a => key a =? t)%Z (x :: l).
Proof.
  induction l as [|y l IH]; [reflexivity|].
  cbn [Js.sort_insert]. unfold cmp at 1.
  destruct (Z.leb_spec (key y - key x) 0) as [Hle|Hgt]; [reflexivity|].
  cbn [filter] in *. rewrite IH.
  destruct (Z.eqb_spec (key x) t), (Z.eqb_spec (key y) t); try reflexivity.
  lia.
Qed.

Lemma sort_stable (t : Z) (l : list A) :
  filter (fun a => key a =? t)%Z (Js.sort cmp l)
  = filter (fun a => key a =? t)%Z l.
Proof.
  induction l as [|x l IH]; [reflexivity|].
  cbn [Js.sort]. rewrite sort_insert_stable. cbn [filter]. now rewrite IH.
Qed.

End SortFacts.

Lemma compareJobs_newest (a b : Job) :
  validDate a -> validDate b ->
  compareJobs "newest" a b = (timeOf b - timeOf a)%Z.
Proof.
  unfold validDate, compareJobs, timeOf. cbn [String.eqb].
  destruct (Js.parseDate (applicationDate a)), (Js.parseDate (applicationDate b));
    intros Ha Hb; try congruence. reflexivity.
Qed.

Lemma filterJobs_showAll (js : list Job) :
  filterJobs showAll js = Js.sort (compareJobs "newest") js.
Proof. reflexivity. Qed.

(** C6 as stated does not hold of every collection.  The second record
    of [Case.undated] has the text soon for a date, which is no date: its
    comparison with each neighbour is not a number and counts as zero, so
    the sort finds every pair of neighbours in order and leaves the list
    as it is.  The record of 10 January stays in front of the record of
    30 January. *)
Lemma applyFilters_all_newest_needs_dates :
  filters (app Case.undated) = showAll
  /\ filteredJobs (app (applyFilters Case.undated))
     = [Case.january10; Case.noDate; Case.january30]
  /\ validDate Case.january10 /\ validDate Case.january30
  /\ (timeOf Case.january10 < timeOf Case.january30)%Z
  /\ ~ StronglySorted (fun a b => (timeOf b <= timeOf a)%Z)
                      (filteredJobs (app (applyFilters Case.undated))).
Proof.
  split; [reflexivity|]. split; [vm_compute; reflexivity|].
  split; [vm_compute; discriminate|]. split; [vm_compute; discriminate|].
  split; [vm_compute; reflexivity|].
  intros H.
  assert (E : filteredJobs (app (applyFilters Case.undated))
              = [Case.january10; Case.noDate; Case.january30])
    by (vm_compute; reflexivity).
  rewrite E in H. apply StronglySorted_inv in H. destruct H as [_ H].
  apply Forall_inv_tail, Forall_inv in H. vm_compute in H. now apply H.
Qed.

(** The collection of [Case.undated] is one an import builds: the cell
    of the date is copied as it is. *)
Lemma undated_by_import :
  let w := fst (importFromCSV Case.undatedFile Sample.fresh) in
  map content (jobs (app w)) = map content (jobs (app Case.undated))
  /\ map applicationDate (filteredJobs (app w)) = ["2026-01-10"; "soon"; "2026-01-30"].
Proof. vm_compute. split; reflexivity. Qed.

(** C6 (as the code has it). With nothing searched, every status, type and
    location, and newest first, [applyFilters] shows every record of a
    collection whose dates are valid, later application dates before
    earlier ones, and the records of one date in the order the collection
    has them. *)
Theorem applyFilters_all_newest (w : World) :
  filters (app w) = showAll ->
  Forall validDate (jobs (app w)) ->
  let shown := filteredJobs (app (applyFilters w)) in
  Permutation (jobs (app w)) shown
  /\ StronglySorted (fun a b => (timeOf b <= timeOf a)%Z) shown
  /\ (forall t, filter (fun job => timeOf job =? t)%Z shown
                = filter (fun job => timeOf job =? t)%Z (jobs (app w))).
Proof.
  intros Hf Hvalid shown.
  assert (E : shown = Js.sort (fun a b => (timeOf b - timeOf a)%Z) (jobs (app w))).
  { subst shown. unfold applyFilters. cbn [filteredJobs app withFilteredJobs withApp].
    rewrite Hf, filterJobs_showAll. apply sort_ext.
    rewrite Forall_forall in Hvalid. intros a b Ha Hb.
    apply compareJobs_newest; auto. }
  rewrite E. split; [apply sort_Permutation|]. split.
  - apply sort_sorted.
  - intros t. apply sort_stable.
Qed.

Lemma applyFilters_all_newest_witness :
  let shown := filteredJobs (app (applyFilters Sample.stocked)) in
  Permutation (jobs (app Sample.stocked)) shown
  /\ StronglySorted (fun a b => (timeOf b <= timeOf a)%Z) shown
  /\ (forall t, filter (fun job => timeOf job =? t)%Z shown
                = filter (fun job => timeOf job =? t)%Z (jobs (app Sample.stocked))).
Proof.
  apply (applyFilters_all_newest Sample.stocked).
  - reflexivity.
  - repeat constructor; vm_compute; discriminate.
Defined.

(* ================================================================== *)
(** ** Strings *)
(* ================================================================== *)

Lemma append_nil_r (s : string) : (s ++ EmptyString)%string = s.
Proof. induction s as [|c s IH]; simpl; [reflexivity|now rewrite IH]. Qed.

Lemma append_assoc (a b c : string) :
  ((a ++ b) ++ c)%string = (a ++ (b ++ c))%string.
Proof. induction a as [|x a IH]; simpl; [reflexivity|now rewrite IH]. Qed.

Lemma length_append (a b : string) :
  String.length (a ++ b) = String.length a + String.length b.
Proof. induction a as [|x a IH]; simpl; [reflexivity|now rewrite IH]. Qed.

Lemma every_append (p : ascii -> bool) (a b : string) :
  every p (a ++ b) = every p a && every p b.
Proof.
  induction a as [|x a IH]; simpl; [reflexivity|].
  now rewrite IH, andb_assoc.
Qed.

Lemma every_impl (p q : ascii -> bool) (s : string) :
  (forall c, p c = true -> q c = true) -> every p s = true -> every q s = true.
Proof.
  intros H. induction s as [|c s IH]; simpl; [reflexivity|].
  intros Hs. apply andb_prop in Hs. destruct Hs as [Hc Hs].
  now rewrite (H c Hc), IH.
Qed.

Lemma textChar_plainChar (c : ascii) : textChar c = true -> plainChar c = true.
Proof. unfold textChar. intros H. now apply andb_prop in H. Qed.

(* ================================================================== *)
(** ** CSV: what the importer reads back from an exported line *)
(* ================================================================== *)

Lemma quoted_append (f rest : string) :
  (quoted f ++ rest)%string = String Js.quote (f ++ String Js.quote rest).
Proof. unfold quoted. cbn [append]. now rewrite append_assoc. Qed.

Lemma escapeChar_textChar (c : ascii) :
  textChar c = true -> escapeChar c = String c EmptyString.
Proof.
  unfold textChar, escapeChar. intros H. apply andb_prop in H.
  destruct H as [_ H]. apply negb_true_iff in H.
  destruct (Ascii.eqb c "&"); [discriminate|].
  destruct (Ascii.eqb c "<"); [discriminate|].
  destruct (Ascii.eqb c ">"); [discriminate|].
  destruct (Js.code c =? 160)%N; [discriminate|reflexivity].
Qed.

Lemma sanitizeInput_text (s : string) :
  every textChar s = true -> sanitizeInput s = s.
Proof.
  induction s as [|c s IH]; [reflexivity|].
  cbn [every sanitizeInput]. intros H. apply andb_prop in H.
  destruct H as [Hc Hs]. now rewrite (escapeChar_textChar c Hc), IH.
Qed.

Lemma orEmpty_id (s : string) : orEmpty s = s.
Proof. destruct s; reflexivity. Qed.

Lemma lookahead_end : lookahead EmptyString = true.
Proof. reflexivity. Qed.

Lemma lookahead_comma (s : string) : lookahead (String "," s) = true.
Proof. reflexivity. Qed.

Lemma lazyQuoted_plain (f rest : string) :
  every plainChar f = true ->
  lookahead rest = true ->
  lazyQuoted (f ++ String Js.quote rest) = Some f.
Proof.
  intros Hf Hrest. induction f as [|c f IH].
  - cbn [append lazyQuoted]. now rewrite Ascii.eqb_refl, Hrest.
  - cbn [every] in Hf. apply andb_prop in Hf. destruct Hf as [Hc Hf].
    unfold plainChar in Hc. apply andb_prop in Hc. destruct Hc as [Hq Hl].
    apply negb_true_iff in Hq, Hl.
    cbn [append lazyQuoted]. rewrite Hq, Hl. cbn [andb].
    now rewrite (IH Hf).
Qed.

Lemma matchField_quoted (f rest : string) :
  every plainChar f = true ->
  lookahead rest = true ->
  matchField (quoted f ++ rest) = Some (quoted f).
Proof.
  intros Hf Hrest. rewrite quoted_append. unfold matchField.
  rewrite Ascii.eqb_refl, (lazyQuoted_plain f rest Hf Hrest). reflexivity.
Qed.

Lemma scanFields_skip (a s : string) (k : nat) :
  scanFields (String.length a + k) (a ++ s) = scanFields k s.
Proof. induction a as [|c a IH]; [reflexivity|]. cbn. exact IH. Qed.

Lemma scanFields_quoted (f rest : string) :
  every plainChar f = true ->
  lookahead rest = true ->
  scanFields 0 (quoted f ++ rest) = quoted f :: scanFields 0 rest.
Proof.
  intros Hf Hrest.
  pose proof (matchField_quoted f rest Hf Hrest) as Hm.
  rewrite quoted_append in *. cbn [scanFields]. rewrite Hm. f_equal.
  replace (String.length (quoted f) - 1) with (String.length f + 1).
  - rewrite scanFields_skip. reflexivity.
  - unfold quoted. cbn [String.length append]. rewrite length_append. simpl. lia.
Qed.

Lemma scanFields_comma (s : string) :
  scanFields 0 (String "," s) = scanFields 0 s.
Proof. reflexivity. Qed.

Lemma rowText_cons (f g : string) (fs : list string) :
  rowText (f :: g :: fs) = (quoted f ++ String "," (rowText (g :: fs)))%string.
Proof. reflexivity. Qed.

Lemma scanFields_row (cells : list string) :
  Forall (fun f => every plainChar f = true) cells ->
  scanFields 0 (rowText cells) = map quoted cells.
Proof.
  induction 1 as [|f fs Hf Hfs IH]; [reflexivity|].
  destruct fs as [|g fs].
  - unfold rowText. cbn [map Js.join].
    rewrite <- (append_nil_r (quoted f)) at 1.
    now rewrite scanFields_quoted.
  - rewrite rowText_cons, scanFields_quoted, scanFields_comma, IH; auto.
Qed.

Lemma endsWithQuote_append (a b : string) :
  b <> EmptyString -> endsWithQuote (a ++ b) = endsWithQuote b.
Proof.
  intros Hb. induction a as [|c a IH]; [reflexivity|].
  cbn [append endsWithQuote]. rewrite IH.
  destruct (a ++ b)%string eqn:E; [|reflexivity].
  destruct a; [simpl in E; congruence|discriminate E].
Qed.

Lemma substring_prefix (a b : string) :
  String.substring 0 (String.length a) (a ++ b) = a.
Proof.
  induction a as [|c a IH]; simpl.
  - destruct b; reflexivity.
  - now rewrite IH.
Qed.

Lemma stripQuotes_quoted (f : string) : stripQuotes (quoted f) = f.
Proof.
  unfold stripQuotes, quoted. cbn [append]. rewrite Ascii.eqb_refl.
  rewrite endsWithQuote_append by discriminate. cbn [endsWithQuote].
  rewrite Ascii.eqb_refl. unfold dropLast.
  rewrite length_append. cbn [String.length].
  replace (String.length f + 1 - 1) with (String.length f) by lia.
  apply substring_prefix.
Qed.

Lemma map_stripQuotes_quoted (cells : list string) :
  map stripQuotes (map quoted cells) = cells.
Proof.
  induction cells as [|f fs IH]; [reflexivity|].
  cbn [map]. now rewrite stripQuotes_quoted, IH.
Qed.

Lemma endsWithQuote_not_space (s : string) :
  endsWithQuote s = true -> Js.trimEnd s = s.
Proof.
  induction s as [|c s IH]; [discriminate|].
  destruct s as [|d s].
  - cbn [endsWithQuote]. intros H. apply Ascii.eqb_eq in H. subst c. reflexivity.
  - intros H. change (endsWithQuote (String d s) = true) in H.
    cbn [Js.trimEnd] in *. rewrite (IH H). reflexivity.
Qed.

Lemma rowText_head (f : string) (fs : list string) :
  exists r, rowText (f :: fs) = String Js.quote r.
Proof.
  destruct fs as [|g fs].
  - exists (f ++ String Js.quote EmptyString)%string. reflexivity.
  - rewrite rowText_cons, quoted_append. eauto.
Qed.

Lemma rowText_endsWithQuote (cells : list string) :
  cells <> [] -> endsWithQuote (rowText cells) = true.
Proof.
  induction cells as [|f fs IH]; [congruence|]. intros _.
  destruct fs as [|g fs].
  - unfold rowText, quoted. cbn [map Js.join].
    rewrite endsWithQuote_append by discriminate.
    cbn [endsWithQuote]. apply Ascii.eqb_refl.
  - rewrite rowText_cons, endsWithQuote_append by discriminate.
    destruct (rowText_head g fs) as [r Hr].
    specialize (IH ltac:(discriminate)). rewrite Hr in *.
    exact IH.
Qed.

Lemma trim_rowText (cells : list string) :
  cells <> [] -> Js.trim (rowText cells) = rowText cells.
Proof.
  intros H. unfold Js.trim.
  destruct cells as [|f fs]; [congruence|].
  destruct (rowText_head f fs) as [r Hr].
  assert (Hs : Js.trimStart (rowText (f :: fs)) = rowText (f :: fs))
    by (rewrite Hr; reflexivity).
  rewrite Hs. apply endsWithQuote_not_space. now apply rowText_endsWithQuote.
Qed.

Lemma rowText_truthy (cells : list string) :
  cells <> [] -> Js.truthy (rowText cells) = true.
Proof.
  destruct cells as [|f fs]; [congruence|]. intros _.
  destruct (rowText_head f fs) as [r Hr]. now rewrite Hr.
Qed.

Lemma split_one_line (s : string) :
  every notNewline s = true -> Js.split Js.newline s = [s].
Proof.
  induction s as [|c s IH]; [reflexivity|].
  cbn [every Js.split]. intros H. apply andb_prop in H. destruct H as [Hc Hs].
  unfold notNewline in Hc. apply negb_true_iff in Hc. rewrite Hc, (IH Hs).
  reflexivity.
Qed.

Lemma split_first_line (a b : string) :
  every notNewline a = true ->
  Js.split Js.newline (a ++ String Js.newline b) = a :: Js.split Js.newline b.
Proof.
  induction a as [|c a IH].
  - intros _. cbn [append Js.split]. now rewrite Ascii.eqb_refl.
  - cbn [every append Js.split]. intros H. apply andb_prop in H.
    destruct H as [Hc Ha]. unfold notNewline in Hc. apply negb_true_iff in Hc.
    rewrite Hc, (IH Ha). reflexivity.
Qed.

Lemma split_join_lines (lines : list string) :
  lines <> [] ->
  Forall (fun l => every notNewline l = true) lines ->
  Js.split Js.newline (Js.join (String Js.newline EmptyString) lines) = lines.
Proof.
  intros Hne H. induction H as [|l ls Hl Hls IH]; [congruence|].
  destruct ls as [|l' ls].
  - cbn [Js.join]. now apply split_one_line.
  - change (Js.join (String Js.newline EmptyString) (l :: l' :: ls))
      with (l ++ String Js.newline
                   (Js.join (String Js.newline EmptyString) (l' :: ls)))%string.
    rewrite split_first_line by exact Hl.
    rewrite IH by discriminate. reflexivity.
Qed.

Lemma plainChar_notNewline (c : ascii) : plainChar c = true -> notNewline c = true.
Proof.
  unfold plainChar, notNewline, Js.isLineTerminator. intros H.
  apply andb_prop in H. destruct H as [_ H]. apply negb_true_iff in H.
  apply orb_false_elim in H. destruct H as [H _].
  apply negb_true_iff. apply Ascii.eqb_neq. intros ->.
  vm_compute in H. discriminate.
Qed.

Lemma quoted_notNewline (f : string) :
  every plainChar f = true -> every notNewline (quoted f) = true.
Proof.
  intros H. unfold quoted. cbn [append every].
  rewrite every_append. cbn [every].
  rewrite (every_impl _ _ f plainChar_notNewline H). reflexivity.
Qed.

Lemma rowText_notNewline (cells : list string) :
  Forall (fun f => every plainChar f = true) cells ->
  every notNewline (rowText cells) = true.
Proof.
  induction 1 as [|f fs Hf Hfs IH]; [reflexivity|].
  destruct fs as [|g fs].
  - unfold rowText. cbn [map Js.join]. now apply quoted_notNewline.
  - rewrite rowText_cons, every_append. cbn [every].
    now rewrite (quoted_notNewline f Hf), IH.
Qed.

Lemma exportable_cells (job : Job) :
  exportable job = true ->
  Forall (fun f => every plainChar f = true) (csvRow job)
  /\ every textChar (company job) = true
  /\ every textChar (role job) = true
  /\ every textChar (notes job) = true.
Proof.
  unfold exportable. intros H.
  repeat (apply andb_prop in H; let H' := fresh "H" in destruct H as [H H']).
  repeat split; auto.
  unfold csvRow.
  repeat constructor; auto;
    apply (every_impl textChar plainChar _ textChar_plainChar); assumption.
Qed.

(** The record [createJob] builds from the fields of an exportable record
    has those very fields. *)
Lemma createJob_content (job : Job) (w : World) :
  exportable job = true ->
  content (snd (createJob (content job) w)) = content job.
Proof.
  intros H. destruct (exportable_cells job H) as (_ & Hc & Hr & Hn).
  destruct (createJob_frame w (content job)) as (_ & _ & _ & _ & E).
  rewrite E. unfold content. cbn.
  now rewrite !sanitizeInput_text, !orEmpty_id by assumption.
Qed.

(** One exported line, read back: one [addJob] with the fields of the
    record the line was made from. *)
Lemma importLine_row (job : Job) (w : World) (n : nat) :
  exportable job = true ->
  fst (importLine (rowText (csvRow job)) (w, n)) = fst (addJob (content job) w).
Proof.
  intros H. destruct (exportable_cells job H) as (Hcells & _).
  unfold importLine.
  rewrite trim_rowText, rowText_truthy by discriminate. cbn [negb].
  unfold matchFields. rewrite (scanFields_row _ Hcells).
  unfold csvRow at 1. cbn [map List.length Nat.ltb Nat.leb].
  cbn [nth]. rewrite !stripQuotes_quoted.
  change (Data.mk (company job) (role job) (jobType job) (location job)
                  (applicationDate job) (status job) (jobLink job) (notes job))
    with (content job).
  destruct (addJob (content job) w) as [w' [j|]]; reflexivity.
Qed.

Lemma import_rows (js : list Job) (w : World) (n : nat) :
  Forall (fun job => exportable job = true) js ->
  map content
      (jobs (app (fst (fold_left (fun st line => importLine line st)
                                 (map (fun job => rowText (csvRow job)) js)
                                 (w, n)))))
  = rev (map content js) ++ map content (jobs (app w)).
Proof.
  intros H. revert w n. induction H as [|job js Hjob Hjs IH]; intros w n.
  - reflexivity.
  - cbn [map fold_left rev].
    pose proof (importLine_row job w n Hjob) as Hline.
    destruct (importLine (rowText (csvRow job)) (w, n)) as [w1 n1].
    cbn [fst] in Hline. rewrite IH, Hline, addJob_jobs. cbn [map].
    rewrite (createJob_content job w Hjob), <- app_assoc. reflexivity.
Qed.

(** The lines of the exported text, as [split] finds them again. *)
Lemma export_lines (js : list Job) :
  Forall (fun job => exportable job = true) js ->
  Js.split Js.newline (csvContent js)
  = Js.join "," csvHeaders :: map (fun job => rowText (csvRow job)) js.
Proof.
  intros H. unfold csvContent. rewrite map_map.
  apply split_join_lines; [discriminate|].
  constructor; [reflexivity|].
  apply Forall_map. eapply Forall_impl; [|exact H].
  intros j Hj. apply rowText_notNewline. now apply exportable_cells.
Qed.

(* ================================================================== *)
(** ** CSV round trip *)
(* ================================================================== *)

(** C3 as stated does not hold: every line read back goes through
    [addJob], which puts the record in front, so the imported records come
    out in the opposite order. *)
Lemma export_import_order_differs :
  match exportToCSV Sample.stocked with
  | Some text =>
      map content (jobs (app (fst (importFromCSV text Sample.fresh))))
      <> map content (jobs (app Sample.stocked))
  | None => False
  end.
Proof. vm_compute. discriminate. Qed.

(** C3 (as the code has it). For a collection that is not empty and whose
    fields hold no quote, no line break and, in company, role and notes,
    none of the characters [sanitizeInput] rewrites, importing the
    exported text into an empty store gives records with the same eight
    fields, in the opposite order. *)
Theorem export_import_reverses (source target : World) :
  jobs (app source) <> [] ->
  Forall (fun job => exportable job = true) (jobs (app source)) ->
  jobs (app target) = [] ->
  exists text,
    exportToCSV source = Some text
    /\ map content (jobs (app (fst (importFromCSV text target))))
       = rev (map content (jobs (app source))).
Proof.
  intros Hne Hok Hempty. unfold exportToCSV.
  destruct (jobs (app source)) as [|job js]; [congruence|].
  exists (csvContent (job :: js)). split; [reflexivity|].
  unfold importFromCSV. rewrite (export_lines _ Hok). cbn [map].
  change (rowText (csvRow job) :: map (fun job => rowText (csvRow job)) js)
    with (map (fun job => rowText (csvRow job)) (job :: js)).
  pose proof (import_rows (job :: js) target 0 Hok) as Hrows.
  destruct (fold_left _ _ (target, 0)) as [w' imported].
  cbn [fst] in *. rewrite Hrows, Hempty. cbn [map]. now rewrite app_nil_r.
Qed.

Lemma export_import_reverses_witness :
  exists text,
    exportToCSV Sample.stocked = Some text
    /\ map content (jobs (app (fst (importFromCSV text Sample.fresh))))
       = rev (map content (jobs (app Sample.stocked))).
Proof.
  apply (export_import_reverses Sample.stocked Sample.fresh).
  - discriminate.
  - repeat constructor.
  - reflexivity.
Defined.

(* ================================================================== *)
(** ** Calendar: days, dates and their text *)
(* ================================================================== *)

Section Calendar.
Local Open Scope Z_scope.

(** Inside an era, [MakeDay] undoes [civilInEra]; month and day of the
    month are in range and the year is one of the era. *)
Lemma civilInEra_spec era doe : 0 <= doe < 146097 ->
  let '(y, m, d) := Js.civilInEra era doe in
  Js.MakeDay y m d = doe + era * 146097 - 719468
  /\ 1 <= m <= 12 /\ 1 <= d <= 31
  /\ 400 * era <= y <= 400 * era + 400.
Proof.
  intros H. unfold Js.civilInEra, Js.MakeDay, Js.daysFromCivil.
  remember ((doe - doe / 1460 + doe / 36524 - doe / 146096) / 365) as yoe eqn:Eyoe.
  remember (doe - (365 * yoe + yoe / 4 - yoe / 100)) as doy eqn:Edoy.
  remember ((5 * doy + 2) / 153) as mp eqn:Emp.
  assert (Hyoe : 0 <= yoe <= 399) by (subst yoe; div_lia).
  assert (Hdoy : 0 <= doy <= 365) by (subst doy yoe; div_lia).
  assert (Hmp : 0 <= mp <= 11) by (subst mp; div_lia).
  destruct (Z.ltb_spec mp 10) as [Hlt|Hge].
  - destruct (Z.leb_spec (mp + 3) 2) as [Hm|Hm]; [lia|].
    destruct (Z.ltb_spec 2 (mp + 3)); [|lia].
    replace (mp + 3 - 3) with mp by lia.
    replace ((yoe + era * 400) / 400) with era by div_lia.
    div_lia.
  - destruct (Z.leb_spec (mp - 9) 2) as [Hm|Hm]; [|lia].
    destruct (Z.ltb_spec 2 (mp - 9)); [lia|].
    replace (mp - 9 + 9) with mp by lia.
    replace ((yoe + era * 400 + 1 - 1) / 400) with era by div_lia.
    div_lia.
Qed.

(** [MakeDay] undoes [civilFromDays]. *)
Lemma civilFromDays_spec z :
  let '(y, m, d) := Js.civilFromDays z in
  Js.MakeDay y m d = z
  /\ 1 <= m <= 12 /\ 1 <= d <= 31
  /\ 400 * ((z + 719468) / 146097) <= y <= 400 * ((z + 719468) / 146097) + 400.
Proof.
  unfold Js.civilFromDays.
  pose proof (civilInEra_spec ((z + 719468) / 146097)
                (z + 719468 - (z + 719468) / 146097 * 146097)) as H.
  destruct (Js.civilInEra _ _) as [[y m] d].
  destruct H as (H1 & H2 & H3 & H4); [div_lia|].
  repeat split; try lia.
Qed.

Lemma MakeDay_shift y m d k : Js.MakeDay y m (d - k) = Js.MakeDay y m d - k.
Proof. unfold Js.MakeDay. lia. Qed.

(** Where the offset never changes, [d.setDate(d.getDate() - k)] moves the
    date back by [k] days of 24 hours. *)
Lemma setDate_constant (z : Js.Zone) (c t k : Z) :
  constantOffset z c ->
  Js.setDate z t (Js.getDate z t - k) = t - k * Js.msPerDay.
Proof.
  intros Hz. unfold Js.setDate, Js.getDate, Js.LocalTime, Js.UTC.
  destruct (Hz t) as [-> _].
  pose proof (civilFromDays_spec (Js.Day (t + c))) as H.
  destruct (Js.civilFromDays (Js.Day (t + c))) as [[y m] d].
  destruct H as (H & _). rewrite MakeDay_shift, H.
  destruct (Hz (Js.MakeDate (Js.Day (t + c) - k) (Js.TimeWithinDay (t + c))))
    as [_ ->].
  unfold Js.MakeDate, Js.Day, Js.TimeWithinDay, Js.msPerDay. div_lia.
Qed.

End Calendar.

Lemma append_inj (a b x y : string) :
  String.length a = String.length b ->
  (a ++ x)%string = (b ++ y)%string -> a = b /\ x = y.
Proof.
  revert b. induction a as [|c a IH]; intros [|d b] Hlen H;
    try discriminate Hlen.
  - auto.
  - cbn [append] in H. injection H as Hc H. injection Hlen as Hlen.
    destruct (IH b Hlen H) as [-> ->]. subst. auto.
Qed.

Lemma String_inj (c c' : ascii) (s s' : string) :
  String c s = String c' s' -> c = c' /\ s = s'.
Proof. intros H. injection H as -> ->. auto. Qed.

Section Formatting.
Local Open Scope Z_scope.

Lemma length_pad (k : nat) (n : Z) : String.length (Js.pad k n) = k.
Proof.
  revert n. induction k as [|k IH]; intros n; [reflexivity|].
  cbn [Js.pad]. rewrite length_append, IH. simpl. lia.
Qed.

Lemma digitChar_inj (a b : Z) :
  0 <= a <= 9 -> 0 <= b <= 9 -> Js.digitChar a = Js.digitChar b -> a = b.
Proof.
  intros Ha Hb H. unfold Js.digitChar, Js.chr in H.
  apply (f_equal N_of_ascii) in H.
  rewrite !N_ascii_embedding in H by lia. lia.
Qed.

Lemma pad_inj (k : nat) (n n' : Z) :
  0 <= n < 10 ^ Z.of_nat k -> 0 <= n' < 10 ^ Z.of_nat k ->
  Js.pad k n = Js.pad k n' -> n = n'.
Proof.
  revert n n'. induction k as [|k IH]; intros n n' Hn Hn' H.
  - simpl in *. lia.
  - rewrite Nat2Z.inj_succ, Z.pow_succ_r in Hn, Hn' by lia.
    cbn [Js.pad] in H.
    apply append_inj in H; [|now rewrite !length_pad].
    destruct H as [Hhi Hlo]. injection Hlo as Hlo.
    apply digitChar_inj in Hlo; [|div_lia|div_lia].
    apply IH in Hhi; [|div_lia|div_lia].
    div_lia.
Qed.

Lemma length_yearString (y : Z) :
  String.length (Js.yearString y) = if (0 <=? y) && (y <=? 9999) then 4%nat else 7%nat.
Proof.
  unfold Js.yearString.
  destruct ((0 <=? y) && (y <=? 9999)); [apply length_pad|].
  destruct (y <? 0); cbn [String.length]; now rewrite length_pad.
Qed.

Lemma yearString_inj (y y' : Z) :
  Z.abs y < 1000000 -> Z.abs y' < 1000000 ->
  Js.yearString y = Js.yearString y' -> y = y'.
Proof.
  intros Hy Hy' H.
  pose proof (f_equal String.length H) as Hlen.
  rewrite !length_yearString in Hlen.
  unfold Js.yearString in H.
  destruct ((0 <=? y) && (y <=? 9999)) eqn:E;
    destruct ((0 <=? y') && (y' <=? 9999)) eqn:E'; try discriminate Hlen.
  - apply andb_prop in E, E'. apply pad_inj in H; [exact H|lia|lia].
  - apply andb_false_iff in E, E'.
    destruct (Z.ltb_spec y 0) as [Hneg|Hpos], (Z.ltb_spec y' 0) as [Hneg'|Hpos'];
      apply String_inj in H; destruct H as [Hsign H];
      try (vm_compute in Hsign; discriminate Hsign);
      apply pad_inj in H; lia.
Qed.

Lemma dateString_inj (y m d y' m' d' : Z) :
  Z.abs y < 1000000 -> Z.abs y' < 1000000 ->
  0 <= m < 100 -> 0 <= m' < 100 -> 0 <= d < 100 -> 0 <= d' < 100 ->
  dateString y m d = dateString y' m' d' -> (y, m, d) = (y', m', d').
Proof.
  intros Hy Hy' Hm Hm' Hd Hd' H. unfold dateString in H.
  assert (Hlen : String.length (Js.yearString y) = String.length (Js.yearString y')).
  { apply (f_equal String.length) in H.
    rewrite !length_append, !length_pad in H. cbn [String.length] in H. lia. }
  apply append_inj in H; [|exact Hlen]. destruct H as [Hyear H].
  apply yearString_inj in Hyear; [|lia|lia].
  cbn [append] in H. apply String_inj in H. destruct H as [_ H].
  apply append_inj in H; [|now rewrite !length_pad]. destruct H as [Hmonth H].
  apply pad_inj in Hmonth; [|simpl; lia|simpl; lia].
  apply String_inj in H. destruct H as [_ H].
  apply pad_inj in H; [|simpl; lia|simpl; lia].
  now subst.
Qed.

(** Two time values with the same date text are on the same day. *)
Lemma isoDate_inj (a b : Z) :
  Z.abs a <= 2 * maxTime -> Z.abs b <= 2 * maxTime ->
  Js.isoDate a = Js.isoDate b -> Js.Day a = Js.Day b.
Proof.
  intros Ha Hb H. unfold Js.isoDate in H.
  pose proof (civilFromDays_spec (Js.Day a)) as Sa.
  pose proof (civilFromDays_spec (Js.Day b)) as Sb.
  destruct (Js.civilFromDays (Js.Day a)) as [[y m] d].
  destruct (Js.civilFromDays (Js.Day b)) as [[y' m'] d'].
  destruct Sa as (Ea & Hm & Hd & Hy). destruct Sb as (Eb & Hm' & Hd' & Hy').
  assert (Hra : -200000001 <= Js.Day a <= 200000001)
    by (unfold Js.Day, Js.msPerDay, maxTime in *; div_lia).
  assert (Hrb : -200000001 <= Js.Day b <= 200000001)
    by (unfold Js.Day, Js.msPerDay, maxTime in *; div_lia).
  apply dateString_inj in H; try lia; try div_lia.
  injection H as -> -> ->. congruence.
Qed.

End Formatting.

Lemma countdown_map (f : nat -> nat) (n : nat) :
  f 0 = 1 -> (forall i, 1 <= i <= n -> f i = 0) ->
  map f (countdown n) = repeat 0 n ++ [1].
Proof.
  intros H0 H. induction n as [|n IH].
  - simpl. now rewrite H0.
  - change (f (S n) :: map f (countdown n) = 0 :: (repeat 0 n ++ [1])).
    rewrite (H (S n)) by lia. f_equal.
    apply IH. intros i Hi. apply H. lia.
Qed.

Lemma daysAgo_constant (w : World) (c : Z) (i : nat) :
  constantOffset (zone w) c ->
  daysAgo w i = (now w - Z.of_nat i * Js.msPerDay)%Z.
Proof. intros H. unfold daysAgo. now apply setDate_constant with (c := c). Qed.

Lemma countOf_single (k k' : string) :
  countOf [(k, 1)] k' = if String.eqb k k' then 1 else 0.
Proof. unfold countOf. cbn [Js.prop]. now destruct (String.eqb k k'). Qed.

(* ================================================================== *)
(** ** Analytics: the 30-day trend *)
(* ================================================================== *)

(** Where the offset of local time never changes, a collection of one
    record dated the (UTC) day it is gives 29 zeros and then a one. *)
Lemma calculateTrend_today (w : World) (job : Job) (t c : Z) :
  jobs (app w) = [job] ->
  constantOffset (zone w) c ->
  (Z.abs (now w) <= maxTime)%Z ->
  Js.parseDate (applicationDate job) = Some t ->
  Js.Day t = Js.Day (now w) ->
  snd (calculateTrend w) = repeat 0 29 ++ [1].
Proof.
  intros Hjobs Hzone Hnow Hparse Hday.
  unfold calculateTrend. cbn [snd]. rewrite Hjobs.
  assert (Hgroup : groupByDate (daysAgo w 30) [job] = [(Js.isoDate t, 1)]).
  { unfold groupByDate. cbn [fold_left]. rewrite Hparse.
    rewrite (daysAgo_constant w c 30 Hzone). cbn [Js.geq].
    destruct (Z.leb_spec (now w - Z.of_nat 30 * Js.msPerDay) t) as [_|Hlt].
    - reflexivity.
    - exfalso. unfold Js.Day, Js.msPerDay in *. div_lia. }
  rewrite Hgroup. apply countdown_map.
  - rewrite countOf_single, (daysAgo_constant w c 0 Hzone).
    replace (now w - Z.of_nat 0 * Js.msPerDay)%Z with (now w) by lia.
    unfold Js.isoDate. rewrite Hday. now rewrite String.eqb_refl.
  - intros i Hi. rewrite countOf_single, (daysAgo_constant w c i Hzone).
    destruct (String.eqb_spec (Js.isoDate t)
                (Js.isoDate (now w - Z.of_nat i * Js.msPerDay))) as [E|_];
      [|reflexivity].
    exfalso. apply isoDate_inj in E.
    + unfold Js.Day, Js.msPerDay in *. div_lia.
    + unfold Js.Day, Js.msPerDay, maxTime in *. div_lia.
    + unfold Js.msPerDay, maxTime in *. lia.
Qed.

(** C5 does not hold of the code where local time changes its offset
    inside the window.  [calculateTrend] steps back one day at a time in
    local time ([setDate], [getDate]) and names each day by its UTC date
    ([toISOString]).  In New York at 19:30 on the day summer time begins,
    the day it is (2026-03-08, on the local calendar and on the UTC one
    alike) and the day before get the same key: the one record dated
    today is counted in the last two positions. *)
Theorem calculateTrend_counts_today_twice :
  jobs (app Sample.newYork) = [Sample.appliedToday]
  /\ applicationDate Sample.appliedToday = defaultApplicationDate Sample.newYork
  /\ applicationDate Sample.appliedToday
     = Js.isoDate (Js.LocalTime (zone Sample.newYork) (now Sample.newYork))
  /\ Js.isoDate (daysAgo Sample.newYork 1) = Js.isoDate (daysAgo Sample.newYork 0)
  /\ snd (calculateTrend Sample.newYork) = repeat 0 28 ++ [1; 1].
Proof. repeat split; vm_compute; reflexivity. Qed.

(** The same record at the same instant on UTC: one application, in the
    last position. *)
Lemma calculateTrend_utc_example :
  snd (calculateTrend Sample.reykjavik) = repeat 0 29 ++ [1].
Proof.
  apply (calculateTrend_today Sample.reykjavik Sample.appliedToday
           (Js.daysFromCivil 2026 3 8 * Js.msPerDay) 0).
  - reflexivity.
  - intros x. split; reflexivity.
  - vm_compute. discriminate.
  - reflexivity.
  - reflexivity.
Qed.

(* ================================================================== *)
(** ** Identifiers and sanitized text *)
(* ================================================================== *)

Lemma random16_lt (n : N) : (Js.random16 n < 16)%N.
Proof.
  unfold Js.random16. apply N.Div0.div_lt_upper_bound.
  pose proof (N.mod_upper_bound n (2 ^ 53) ltac:(discriminate)). lia.
Qed.

Lemma below_16 (v : N) (P : N -> Prop) :
  (v < 16)%N ->
  P 0%N -> P 1%N -> P 2%N -> P 3%N -> P 4%N -> P 5%N -> P 6%N -> P 7%N ->
  P 8%N -> P 9%N -> P 10%N -> P 11%N -> P 12%N -> P 13%N -> P 14%N -> P 15%N ->
  P v.
Proof.
  intros Hv. intros.
  assert (E : (v = 0 \/ v = 1 \/ v = 2 \/ v = 3 \/ v = 4 \/ v = 5 \/ v = 6
               \/ v = 7 \/ v = 8 \/ v = 9 \/ v = 10 \/ v = 11 \/ v = 12
               \/ v = 13 \/ v = 14 \/ v = 15)%N) by lia.
  repeat (destruct E as [->|E]; [assumption|]). now subst.
Qed.

Lemma uuidDigit_x (n : N) : isHex (uuidDigit "x" n) = true.
Proof.
  unfold uuidDigit. cbn [Ascii.eqb Bool.eqb].
  apply (below_16 (Js.random16 n) (fun v => isHex (Js.toString16 v) = true));
    [apply random16_lt|..]; reflexivity.
Qed.

Lemma uuidDigit_y (n : N) :
  let c := uuidDigit "y" n in
  Ascii.eqb c "8" || Ascii.eqb c "9" || Ascii.eqb c "a" || Ascii.eqb c "b" = true.
Proof.
  unfold uuidDigit.
  apply (below_16 (Js.random16 n)
           (fun r => let c := Js.toString16 (N.lor (N.land r 3) 8) in
                     Ascii.eqb c "8" || Ascii.eqb c "9" || Ascii.eqb c "a"
                     || Ascii.eqb c "b" = true));
    [apply random16_lt|..]; reflexivity.
Qed.

Lemma uuidFill_shape (template : string) (rnd : nat -> N) (k : nat) :
  uuidShape template (fst (uuidFill template rnd k)) = true.
Proof.
  revert k. induction template as [|t template IH]; intros k; [reflexivity|].
  cbn [uuidFill].
  destruct (Ascii.eqb t "x") eqn:Ex; cbn [orb].
  - specialize (IH (S k)). destruct (uuidFill template rnd (S k)) as [s k'].
    cbn [fst uuidShape] in *. rewrite Ex, IH.
    apply Ascii.eqb_eq in Ex. subst t. now rewrite uuidDigit_x.
  - destruct (Ascii.eqb t "y") eqn:Ey.
    + specialize (IH (S k)). destruct (uuidFill template rnd (S k)) as [s k'].
      cbn [fst uuidShape] in *. rewrite Ex, Ey, IH.
      apply Ascii.eqb_eq in Ey. subst t. now rewrite uuidDigit_y.
    + specialize (IH k). destruct (uuidFill template rnd k) as [s k'].
      cbn [fst uuidShape] in *. now rewrite Ex, Ey, IH, Ascii.eqb_refl.
Qed.

Lemma uuidShape_length (template id : string) :
  uuidShape template id = true -> String.length id = String.length template.
Proof.
  revert id. induction template as [|t template IH]; intros [|c id] H;
    try discriminate H; [reflexivity|].
  cbn [uuidShape] in H. apply andb_prop in H. destruct H as [_ H].
  cbn [String.length]. now rewrite (IH id H).
Qed.

(** X1. Every id [generateUUID] gives has the shape of a version 4 UUID: 36
    characters, lower-case hexadecimal digits in five groups of 8, 4, 4, 4
    and 12 with dashes between, a 4 at the head of the third group and
    one of 8, 9, a, b at the head of the fourth; it is never empty.  It
    takes 31 random numbers. *)
Theorem generateUUID_shape (w : World) :
  uuidShape uuidTemplate (snd (generateUUID w)) = true
  /\ String.length (snd (generateUUID w)) = 36
  /\ Js.truthy (snd (generateUUID w)) = true
  /\ drawn (fst (generateUUID w)) = drawn w + 31.
Proof.
  unfold generateUUID.
  pose proof (uuidFill_shape uuidTemplate (entropy w) (drawn w)) as Hshape.
  assert (Hk : snd (uuidFill uuidTemplate (entropy w) (drawn w)) = drawn w + 31).
  { generalize (drawn w) as k. generalize (entropy w) as rnd. intros rnd k.
    cbn. lia. }
  destruct (uuidFill uuidTemplate (entropy w) (drawn w)) as [s k].
  cbn [fst snd] in *. pose proof (uuidShape_length _ _ Hshape) as Hlen.
  repeat split; auto.
  destruct s; [discriminate Hlen|reflexivity].
Qed.

Lemma escapeChar_notBracket (c : ascii) : every notBracket (escapeChar c) = true.
Proof.
  unfold escapeChar.
  destruct (Ascii.eqb c "&"); [reflexivity|].
  destruct (Ascii.eqb c "<") eqn:E1; [reflexivity|].
  destruct (Ascii.eqb c ">") eqn:E2; [reflexivity|].
  destruct (Js.code c =? 160)%N; [reflexivity|].
  cbn [every]. unfold notBracket. now rewrite E1, E2.
Qed.

Lemma sanitizeInput_notBracket (s : string) :
  every notBracket (sanitizeInput s) = true.
Proof.
  induction s as [|c s IH]; [reflexivity|].
  cbn [sanitizeInput]. now rewrite every_append, escapeChar_notBracket, IH.
Qed.

(** X2. The record [addJob] puts in the collection, and the one [updateJob]
    stores, have no angle bracket in company, role and notes, whatever
    was typed: markup in these fields is never stored as markup. *)
Theorem stored_text_has_no_markup (w : World) (jobData : Data.t) (old : Job) :
  let added := snd (createJob jobData w) in
  let changed := updated old jobData in
  every notBracket (company added) = true
  /\ every notBracket (role added) = true
  /\ every notBracket (notes added) = true
  /\ every notBracket (company changed) = true
  /\ every notBracket (role changed) = true
  /\ every notBracket (notes changed) = true.
Proof.
  unfold createJob, generateUUID, updated.
  destruct (uuidFill uuidTemplate (entropy w) (drawn w)) as [s k].
  cbn. rewrite !orEmpty_id.
  repeat split; apply sanitizeInput_notBracket.
Qed.

Lemma length_escapeChar (c : ascii) :
  1 <= String.length (escapeChar c)
  /\ (escaped c = true -> 1 < String.length (escapeChar c)).
Proof.
  unfold escapeChar, escaped.
  destruct (Ascii.eqb c "&"); [cbn; split; [lia|intros; lia]|].
  destruct (Ascii.eqb c "<"); [cbn; split; [lia|intros; lia]|].
  destruct (Ascii.eqb c ">"); [cbn; split; [lia|intros; lia]|].
  destruct (Js.code c =? 160)%N; cbn; split; try lia; intros; try lia;
    try discriminate.
Qed.

Lemma length_sanitizeInput (s : string) :
  String.length s <= String.length (sanitizeInput s)
  /\ (every (fun c => negb (escaped c)) s = false ->
      String.length s < String.length (sanitizeInput s)).
Proof.
  induction s as [|c s [IH1 IH2]]; [split; [reflexivity|discriminate]|].
  cbn [sanitizeInput every String.length]. rewrite length_append.
  destruct (length_escapeChar c) as [H1 H2]. split; [lia|].
  intros H. apply andb_false_iff in H. destruct H as [H|H].
  - apply negb_false_iff in H. specialize (H2 H). lia.
  - specialize (IH2 H). lia.
Qed.

Lemma sanitizeInput_clean (s : string) :
  every (fun c => negb (escaped c)) s = true -> sanitizeInput s = s.
Proof.
  induction s as [|c s IH]; [reflexivity|].
  cbn [every]. intros H. apply andb_prop in H. destruct H as [Hc Hs].
  cbn [sanitizeInput]. rewrite (IH Hs).
  unfold escapeChar. unfold escaped in Hc. apply negb_true_iff in Hc.
  destruct (Ascii.eqb c "&"); [discriminate|].
  destruct (Ascii.eqb c "<"); [discriminate|].
  destruct (Ascii.eqb c ">"); [discriminate|].
  destruct (Js.code c =? 160)%N; [discriminate|reflexivity].
Qed.

(** X3. [sanitizeInput] gives its argument back exactly when the argument has
    none of the four characters it rewrites, and the result is never
    shorter than the argument.  A text that was sanitized once and holds
    an ampersand is thus changed again by a second pass. *)
Theorem sanitizeInput_fixed_point (s : string) :
  (sanitizeInput s = s <-> every (fun c => negb (escaped c)) s = true)
  /\ String.length s <= String.length (sanitizeInput s).
Proof.
  destruct (length_sanitizeInput s) as [Hle Hlt]. split; [|exact Hle].
  split; [|apply sanitizeInput_clean].
  intros E. destruct (every (fun c => negb (escaped c)) s) eqn:H; [reflexivity|].
  specialize (Hlt eq_refl). rewrite E in Hlt. lia.
Qed.

(* ================================================================== *)
(** ** Record store: the other paths *)
(* ================================================================== *)

(** X4. When the write goes through, [addJob] returns the record it created;
    the record is the first of the collection, the collection is what is
    persisted, the list shown is recomputed from it, and [getJobById]
    finds the record under its id. *)
Theorem addJob_saved (w : World) (jobData : Data.t) :
  let job := snd (createJob jobData w) in
  accepts (localStorage w) (job :: jobs (app w)) = true ->
  let w' := fst (addJob jobData w) in
  snd (addJob jobData w) = Some job
  /\ jobs (app w') = job :: jobs (app w)
  /\ jobsItem (localStorage w') = Some (jobs (app w'))
  /\ filteredJobs (app w') = filterJobs (filters (app w)) (jobs (app w'))
  /\ getJobById (id job) w' = Some job.
Proof.
  intros job Hok w'. subst job w'.
  unfold addJob, getJobById.
  destruct (createJob_frame w jobData) as (Ha & Hl & _).
  destruct (createJob jobData w) as [w1 j]. cbn [fst snd] in *.
  unfold saveJobs, Storage.set, Js.unshift. cbn.
  rewrite Ha, Hl, Hok. cbn. rewrite Ha, String.eqb_refl. auto.
Qed.

Lemma setAt_map {A B : Type} (f : A -> B) (i : nat) (x y : A) (l : list A) :
  nth_error l i = Some y -> f x = f y -> map f (setAt i x l) = map f l.
Proof.
  revert i. induction l as [|z l IH]; intros [|i]; cbn; try discriminate.
  - intros [= ->] E. now rewrite E.
  - intros H E. now rewrite (IH i H E).
Qed.

Lemma setAt_nth {A : Type} (i : nat) (x y : A) (l : list A) :
  nth_error l i = Some y ->
  nth_error (setAt i x l) i = Some x
  /\ (forall k, k <> i -> nth_error (setAt i x l) k = nth_error l k)
  /\ List.length (setAt i x l) = List.length l.
Proof.
  revert i. induction l as [|z l IH]; intros [|i]; cbn; try discriminate.
  - intros _. repeat split; auto. intros [|k] Hk; [congruence|reflexivity].
  - intros H. destruct (IH i H) as (H1 & H2 & H3). repeat split; auto.
    intros [|k] Hk; [reflexivity|]. cbn. apply H2. congruence.
Qed.

(** [updateJob] on an id that is there, whatever the write does. *)
Lemma updateJob_found (w : World) (jobId : string) (jobData : Data.t) :
  In jobId (ids w) ->
  exists index old,
    Js.findIndex (fun job => String.eqb (id job) jobId) (jobs (app w)) = Some index
    /\ nth_error (jobs (app w)) index = Some old
    /\ id old = jobId
    /\ let js := setAt index (updated old jobData) (jobs (app w)) in
       jobs (app (fst (updateJob jobId jobData w))) = js
       /\ snd (updateJob jobId jobData w) = accepts (localStorage w) js
       /\ jobsItem (localStorage (fst (updateJob jobId jobData w)))
          = (if accepts (localStorage w) js then Some js
             else jobsItem (localStorage w)).
Proof.
  intros Hin.
  destruct (present_findIndex jobId _ Hin) as (i & old & Hi & Hn & Hid & _).
  exists i, old. repeat split; auto; cbv zeta;
    unfold updateJob; rewrite Hi, Hn; unfold saveJobs, Storage.set; cbn;
    destruct (accepts _ _); reflexivity.
Qed.

(** X5. [updateJob] changes the first record with the given id where it
    stands: the collection keeps its length, every record keeps its id,
    its creation time and its place, the record found gets the new
    (sanitized) fields, and the others are left as they were.  This holds
    whether or not the write goes through. *)
Theorem updateJob_in_place (w : World) (jobId : string) (jobData : Data.t) :
  In jobId (ids w) ->
  let js' := jobs (app (fst (updateJob jobId jobData w))) in
  map id js' = map id (jobs (app w))
  /\ map createdAt js' = map createdAt (jobs (app w))
  /\ List.length js' = List.length (jobs (app w))
  /\ exists index old,
       Js.findIndex (fun job => String.eqb (id job) jobId) (jobs (app w)) = Some index
       /\ nth_error (jobs (app w)) index = Some old
       /\ nth_error js' index = Some (updated old jobData)
       /\ forall k, k <> index -> nth_error js' k = nth_error (jobs (app w)) k.
Proof.
  intros Hin js'. subst js'.
  destruct (updateJob_found w jobId jobData Hin)
    as (i & old & Hi & Hn & _ & Hjs & _).
  rewrite Hjs. destruct (setAt_nth i (updated old jobData) old _ Hn)
    as (H1 & H2 & H3).
  repeat split.
  - now apply setAt_map with (y := old).
  - now apply setAt_map with (y := old).
  - exact H3.
  - exists i, old. auto.
Qed.


(** X7. An id that is not in the collection: [deleteJob] leaves the world as
    it was and returns [null]. *)
Theorem deleteJob_not_found (w : World) (jobId : string) :
  ~ In jobId (ids w) -> deleteJob jobId w = (w, None).
Proof.
  intros H. unfold deleteJob. now rewrite (absent_findIndex jobId _ H).
Qed.

(** The collection [deleteJob] leaves in memory. *)
Lemma deleteJob_jobs (w : World) (jobId : string) :
  jobs (app (fst (deleteJob jobId w)))
  = match snd (deleteJob jobId w) with
    | Some _ => afterRemoval jobId (jobs (app w))
    | None => jobs (app w)
    end.
Proof.
  unfold deleteJob, afterRemoval.
  destruct (Js.findIndex _ _) as [i|] eqn:Hi; [|reflexivity].
  destruct (findIndex_Some _ _ _ Hi) as (x & Hn & _).
  destruct (splice_out_nth _ _ _ Hn) as [Hs _]. rewrite Hs.
  pose proof (splice_in_out _ _ _ Hn) as Hback.
  remember (firstn i (jobs (app w)) ++ skipn (S i) (jobs (app w))) as rest.
  unfold saveJobs, Storage.set. cbn. destruct (accepts _ _); cbn; auto.
Qed.

(** X8. With ids that are pairwise distinct, a delete that succeeds returns
    the record with the given id, leaves no record with that id, makes the
    collection one shorter and persists what is left. *)
Theorem deleteJob_removes (w : World) (jobId : string) :
  NoDup (ids w) ->
  In jobId (ids w) ->
  accepts (localStorage w) (afterRemoval jobId (jobs (app w))) = true ->
  let w' := fst (deleteJob jobId w) in
  (exists removed, snd (deleteJob jobId w) = Some removed /\ id removed = jobId
                   /\ In removed (jobs (app w)))
  /\ ~ In jobId (ids w')
  /\ S (List.length (jobs (app w'))) = List.length (jobs (app w))
  /\ (forall job, In job (jobs (app w)) -> id job <> jobId -> In job (jobs (app w')))
  /\ jobsItem (localStorage w') = Some (jobs (app w')).
Proof.
  intros Hnd Hin Hok w'. subst w'.
  destruct (deleteJob_saved w jobId Hin Hok)
    as (removed & w1 & Hdel & _ & Hid & Hjobs & _ & Hperm).
  assert (Hdisk : jobsItem (localStorage (fst (deleteJob jobId w)))
                  = Some (jobs (app (fst (deleteJob jobId w))))).
  { clear Hdel. unfold deleteJob, afterRemoval in *.
    destruct (present_findIndex jobId _ Hin) as (i & x & Hi & Hn & _).
    rewrite Hi in *. destruct (splice_out_nth _ _ _ Hn) as [Hs _].
    rewrite Hs in *.
    remember (firstn i (jobs (app w)) ++ skipn (S i) (jobs (app w))) as rest.
    cbn [snd] in Hok. unfold saveJobs, Storage.set. cbn. rewrite Hok.
    reflexivity. }
  rewrite Hdel in *. cbn [fst snd] in *.
  assert (Hnd' : NoDup (map id (removed :: jobs (app w1)))).
  { eapply Permutation_NoDup; [apply Permutation_sym, Permutation_map, Hperm|].
    exact Hnd. }
  cbn [map] in Hnd'. rewrite Hid in Hnd'. inversion Hnd' as [|? ? Hnot _]; subst.
  repeat split; auto.
  - exists removed. repeat split; auto.
    eapply Permutation_in; [exact Hperm|]. now left.
  - apply Permutation_length in Hperm. exact Hperm.
  - intros job Hjob Hne.
    apply (Permutation_in _ (Permutation_sym Hperm)) in Hjob.
    destruct Hjob as [<-|Hjob]; [congruence|exact Hjob].
Qed.

(** X9. [updateJob] never changes an id and [deleteJob] only takes a record
    out: ids that are pairwise distinct stay so through both, whatever
    the id asked for and whatever the write does. *)
Theorem ids_stay_distinct (w : World) (jobId : string) (jobData : Data.t) :
  NoDup (ids w) ->
  ids (fst (updateJob jobId jobData w)) = ids w
  /\ NoDup (ids (fst (updateJob jobId jobData w)))
  /\ NoDup (ids (fst (deleteJob jobId w)))
  /\ incl (ids (fst (deleteJob jobId w))) (ids w).
Proof.
  intros Hnd.
  assert (Hu : ids (fst (updateJob jobId jobData w)) = ids w).
  { destruct (in_dec string_dec jobId (ids w)) as [Hin|Hout].
    - destruct (updateJob_found w jobId jobData Hin)
        as (i & old & _ & Hn & _ & Hjs & _).
      unfold ids. rewrite Hjs. now apply setAt_map with (y := old).
    - unfold updateJob. now rewrite (absent_findIndex jobId _ Hout). }
  rewrite Hu. split; [reflexivity|]. split; [exact Hnd|].
  unfold ids in *. rewrite deleteJob_jobs.
  destruct (snd (deleteJob jobId w)); [|split; [exact Hnd|apply incl_refl]].
  unfold afterRemoval.
  destruct (Js.findIndex _ _) as [i|] eqn:Hi; [|split; [exact Hnd|apply incl_refl]].
  destruct (findIndex_Some _ _ _ Hi) as (x & Hn & _).
  destruct (splice_out_nth _ _ _ Hn) as [Hs _]. rewrite Hs. cbn [snd].
  pose proof (removed_Permutation _ _ _ Hn) as Hperm.
  apply (Permutation_map id) in Hperm. cbn [map] in Hperm. split.
  - apply Permutation_sym in Hperm.
    apply (Permutation_NoDup Hperm) in Hnd. now inversion Hnd.
  - intros a Ha. eapply Permutation_in; [exact Hperm|]. now right.
Qed.

(** X10. After an add, an update or a delete that reports success, what is
    persisted is the collection in memory: loading again brings back the
    same collection and the same list shown. *)
Theorem reload_after_success (m : Mutation) (w : World) :
  snd (mutate m w) = true ->
  let w' := fst (mutate m w) in
  jobsItem (localStorage w') = Some (jobs (app w'))
  /\ jobs (app (loadJobs w')) = jobs (app w')
  /\ filteredJobs (app (loadJobs w')) = filteredJobs (app w').
Proof.
  intros Hok w'.
  assert (H : jobsItem (localStorage w') = Some (jobs (app w'))
              /\ filteredJobs (app w')
                 = filterJobs (filters (app w')) (jobs (app w'))).
  { subst w'. destruct m as [d|jid d|jid]; cbn [mutate] in *.
    - unfold addJob in *. destruct (createJob d w) as [w1 j].
      unfold saveJobs, Storage.set in *. cbn in *.
      destruct (accepts _ _); cbn in *; [auto|discriminate].
    - unfold updateJob in *.
      destruct (Js.findIndex _ _) as [i|]; [|discriminate].
      destruct (nth_error _ _) as [old|]; [|discriminate].
      unfold saveJobs, Storage.set in *. cbn in *.
      destruct (accepts _ _); cbn in *; [auto|discriminate].
    - unfold deleteJob in *.
      destruct (Js.findIndex _ _) as [i|]; [|discriminate].
      destruct (Js.splice_out _ _) as [[|x [|y l]] rest]; try discriminate.
      unfold saveJobs, Storage.set in *. cbn in *.
      destruct (accepts _ _); cbn in *; [auto|discriminate]. }
  destruct H as [Hdisk Hview]. split; [exact Hdisk|].
  unfold loadJobs, Storage.get. rewrite Hdisk. cbn. rewrite Hview. auto.
Qed.

(* ================================================================== *)
(** ** Query engine: the filters *)
(* ================================================================== *)

Lemma filter_guard {A : Type} (c : bool) (p : A -> bool) (l : list A) :
  (if c then filter p l else l) = filter (fun x => negb c || p x) l.
Proof.
  destruct c; cbn [negb orb]; [reflexivity|].
  induction l as [|x l IH]; [reflexivity|]. cbn. now rewrite <- IH.
Qed.

Lemma filter_and {A : Type} (p q : A -> bool) (l : list A) :
  filter q (filter p l) = filter (fun x => p x && q x) l.
Proof.
  induction l as [|x l IH]; [reflexivity|].
  cbn [filter]. destruct (p x); cbn [filter andb]; now rewrite IH.
Qed.

(** [filterJobs] is the sort of the records that pass the filters. *)
Lemma filterJobs_sort_filter (f : Filters.t) (js : list Job) :
  filterJobs f js = Js.sort (compareJobs (Filters.sort f)) (filter (matches f) js).
Proof.
  unfold filterJobs. f_equal.
  rewrite !filter_guard, !filter_and.
  apply filter_ext. intros job. unfold matches.
  rewrite !negb_involutive, !andb_assoc, !orb_assoc. reflexivity.
Qed.

(** X11. Whatever the filters, the list [applyFilters] shows holds exactly the
    records of the collection that pass all of them, each as often as the
    collection has it; the collection itself and the storage are left
    alone. *)
Theorem applyFilters_shows_matches (w : World) :
  let shown := filteredJobs (app (applyFilters w)) in
  Permutation shown (filter (matches (filters (app w))) (jobs (app w)))
  /\ (forall job, In job shown <->
        In job (jobs (app w)) /\ matches (filters (app w)) job = true)
  /\ jobs (app (applyFilters w)) = jobs (app w)
  /\ localStorage (applyFilters w) = localStorage w.
Proof.
  cbv zeta. unfold applyFilters. cbn.
  rewrite filterJobs_sort_filter.
  assert (Hp : Permutation
                 (Js.sort (compareJobs (Filters.sort (filters (app w))))
                          (filter (matches (filters (app w))) (jobs (app w))))
                 (filter (matches (filters (app w))) (jobs (app w))))
    by apply Permutation_sym, sort_Permutation.
  split; [exact Hp|]. split; [|split; reflexivity].
  intros job. split.
  - intros Hj. apply (Permutation_in _ Hp) in Hj. now apply filter_In in Hj.
  - intros Hj. apply (Permutation_in _ (Permutation_sym Hp)).
    now apply filter_In.
Qed.

Lemma StronglySorted_impl {A : Type} (R R' : A -> A -> Prop) (l : list A) :
  (forall a b, R a b -> R' a b) -> StronglySorted R l -> StronglySorted R' l.
Proof.
  intros H. induction 1 as [|x l Hs IH Hall]; constructor; auto.
  eapply Forall_impl; [|exact Hall]. auto.
Qed.

Lemma compareJobs_oldest (sort : string) (a b : Job) :
  sort <> "newest" -> validDate a -> validDate b ->
  compareJobs sort a b = (timeOf a - timeOf b)%Z.
Proof.
  unfold validDate, compareJobs, timeOf. intros Hs.
  apply String.eqb_neq in Hs. rewrite Hs.
  destruct (Js.parseDate (applicationDate a)), (Js.parseDate (applicationDate b));
    intros Ha Hb; try congruence. reflexivity.
Qed.

(** X12. With any sort order other than newest, the list shown has the records
    that pass the filters by application date, earlier dates first, and
    the records of one date in the order the collection has them (dates
    being valid). *)
Theorem applyFilters_oldest (w : World) :
  Filters.sort (filters (app w)) <> "newest" ->
  Forall validDate (jobs (app w)) ->
  let shown := filteredJobs (app (applyFilters w)) in
  StronglySorted (fun a b => (timeOf a <= timeOf b)%Z) shown
  /\ (forall t, filter (fun job => timeOf job =? t)%Z shown
                = filter (fun job => timeOf job =? t)%Z
                         (filter (matches (filters (app w))) (jobs (app w)))).
Proof.
  intros Hsort Hvalid shown.
  set (kept := filter (matches (filters (app w))) (jobs (app w))).
  assert (Hkept : Forall validDate kept).
  { rewrite Forall_forall in *. intros j Hj. apply Hvalid.
    unfold kept in Hj. now apply filter_In in Hj. }
  assert (E : shown = Js.sort (fun a b => (- timeOf b - - timeOf a)%Z) kept).
  { subst shown. unfold applyFilters. cbn. rewrite filterJobs_sort_filter.
    apply sort_ext. rewrite Forall_forall in Hkept. intros a b Ha Hb.
    rewrite compareJobs_oldest; auto. lia. }
  rewrite E. split.
  - eapply StronglySorted_impl; [|apply (sort_sorted (fun j => (- timeOf j)%Z))].
    cbn. intros; lia.
  - intros t.
    pose proof (sort_stable (fun j => (- timeOf j)%Z) (- t)%Z kept) as H.
    cbn in H.
    rewrite (filter_ext (fun job => timeOf job =? t)%Z
                        (fun job => (- timeOf job =? - t)%Z)).
    + rewrite H. apply filter_ext. intros a.
      destruct (Z.eqb_spec (- timeOf a) (- t)), (Z.eqb_spec (timeOf a) t);
        auto; lia.
    + intros a.
      destruct (Z.eqb_spec (- timeOf a) (- t)), (Z.eqb_spec (timeOf a) t);
        auto; lia.
Qed.

Lemma toLowerCase_truthy (s : string) :
  Js.truthy (Js.toLowerCase s) = Js.truthy s.
Proof. destruct s; reflexivity. Qed.

(** X13. The search does not look at the letter case of the search text: two
    texts that are the same once in lower case give the same list. *)
Theorem search_ignores_case (f : Filters.t) (text text' : string)
    (js : list Job) :
  Js.toLowerCase text = Js.toLowerCase text' ->
  filterJobs (searching f text) js = filterJobs (searching f text') js.
Proof.
  intros E. rewrite !filterJobs_sort_filter. cbn [searching Filters.sort].
  f_equal. apply filter_ext. intros job. unfold matches. cbn.
  rewrite <- (toLowerCase_truthy text), <- (toLowerCase_truthy text'), E.
  reflexivity.
Qed.

(* ================================================================== *)
(** ** Sequences of commands *)
(* ================================================================== *)

Lemma addJob_undoPart (jobData : Data.t) (w : World) :
  undoPart (fst (addJob jobData w)) = undoPart w.
Proof.
  unfold addJob. destruct (createJob_frame w jobData) as (Ha & _ & Ht & _).
  destruct (createJob jobData w) as [w1 j]. cbn [fst snd] in *.
  unfold saveJobs, Storage.set, undoPart. cbn.
  destruct (accepts _ _); cbn; now rewrite Ha, Ht.
Qed.

Lemma updateJob_undoPart (jobId : string) (jobData : Data.t) (w : World) :
  undoPart (fst (updateJob jobId jobData w)) = undoPart w.
Proof.
  unfold updateJob, saveJobs, Storage.set, undoPart.
  destruct (Js.findIndex _ _); [|reflexivity].
  destruct (nth_error _ _); [|reflexivity].
  cbn. destruct (accepts _ _); reflexivity.
Qed.

Lemma deleteJob_undoPart (jobId : string) (w : World) :
  undoPart (fst (deleteJob jobId w)) = undoPart w.
Proof.
  unfold deleteJob, saveJobs, Storage.set, undoPart.
  destruct (Js.findIndex _ _); [|reflexivity].
  destruct (Js.splice_out _ _) as [[|x [|y l]] rest]; try reflexivity.
  cbn. destruct (accepts _ _); reflexivity.
Qed.

Lemma applyFilters_undoPart (w : World) : undoPart (applyFilters w) = undoPart w.
Proof. reflexivity. Qed.

Lemma importLine_undoPart (line : string) (w : World) (n : nat) :
  undoPart (fst (importLine line (w, n))) = undoPart w.
Proof.
  unfold importLine.
  destruct (negb _); [reflexivity|].
  destruct (matchFields _); [|reflexivity].
  destruct (_ <? _)%nat; [reflexivity|].
  match goal with |- context [addJob ?d w] =>
    pose proof (addJob_undoPart d w) as H; destruct (addJob d w) as [w' [j|]]
  end; exact H.
Qed.

Lemma importLines_undoPart (lines : list string) (w : World) (n : nat) :
  undoPart (fst (fold_left (fun st line => importLine line st) lines (w, n)))
  = undoPart w.
Proof.
  revert w n. induction lines as [|l ls IH]; intros w n; [reflexivity|].
  cbn [fold_left]. pose proof (importLine_undoPart l w n) as H.
  destruct (importLine l (w, n)) as [w1 n1]. cbn [fst] in H.
  now rewrite IH.
Qed.

Lemma importFromCSV_undoPart (text : string) (w : World) :
  undoPart (fst (importFromCSV text w)) = undoPart w.
Proof.
  unfold importFromCSV.
  destruct (Js.split _ _) as [|h [|l ls]]; try reflexivity.
  pose proof (importLines_undoPart (l :: ls) w 0) as H.
  destruct (fold_left _ _ _) as [w' n]. exact H.
Qed.

Lemma handleFormSubmit_undoPart (parses : string -> bool) (form : Data.t)
    (w : World) :
  undoPart (handleFormSubmit parses form w) = undoPart w.
Proof.
  unfold handleFormSubmit.
  destruct (missingRequired _); [reflexivity|].
  destruct (_ && _); [reflexivity|].
  assert (Hadd : undoPart match addJob (readForm form) w with
                          | (w1, Some _) => hideJobModal w1
                          | (w1, None) => w1
                          end = undoPart w).
  { pose proof (addJob_undoPart (readForm form) w) as H.
    destruct (addJob _ w) as [w1 [j|]]; exact H. }
  destruct (currentEditingJobId (app w)) as [jid|]; [|exact Hadd].
  destruct (Js.truthy jid); [|exact Hadd].
  pose proof (updateJob_undoPart jid (readForm form) w) as H.
  destruct (updateJob jid _ w) as [w1 [|]]; exact H.
Qed.

Lemma handles_filter (h : positive) (ts : list Timer) :
  map handle (filter (fun t => negb (Pos.eqb (handle t) h)) ts)
  = filter (fun k => negb (Pos.eqb k h)) (map handle ts).
Proof.
  induction ts as [|t ts IH]; [reflexivity|].
  cbn. destruct (Pos.eqb (handle t) h); cbn; now rewrite IH.
Qed.

Lemma find_timer (h : positive) (ts : list Timer) :
  match Js.find (fun t => Pos.eqb (handle t) h) ts with
  | Some t => In h (map handle ts)
  | None => ~ In h (map handle ts)
  end.
Proof.
  induction ts as [|t ts IH]; cbn; [tauto|].
  destruct (Pos.eqb_spec (handle t) h) as [E|N]; [now left|].
  destruct (Js.find _ ts); [now right|]. tauto.
Qed.

Lemma slotAgrees_frame (w w' : World) :
  undoPart w' = undoPart w -> slotAgrees w -> slotAgrees w'.
Proof.
  unfold undoPart, slotAgrees, pendingHandles. intros [= -> -> ->]. auto.
Qed.

Lemma handleConfirmDelete_slot (jobId : option string) (w : World) :
  slotAgrees w -> slotAgrees (handleConfirmDelete jobId w).
Proof.
  intros Hinv. unfold handleConfirmDelete.
  destruct jobId as [jid|]; [|exact Hinv].
  destruct (Js.truthy jid); [|exact Hinv].
  pose proof (deleteJob_undoPart jid w) as Hframe.
  destruct (deleteJob jid w) as [w1 [deleted|]]; cbn [fst] in Hframe;
    [|now apply (slotAgrees_frame w)].
  unfold undoPart in Hframe. injection Hframe as Hd Ht Hts.
  unfold slotAgrees in *. rewrite <- Hd, <- Ht in Hinv.
  unfold pendingHandles in Hinv. rewrite <- Hts in Hinv.
  destruct (deleteTimeout (app w1)) as [h0|] eqn:Eh.
  - cbn. rewrite Eh. cbn. eexists. split; [reflexivity|].
    unfold pendingHandles. cbn. rewrite map_app, handles_filter. cbn.
    destruct (deletedJob (app w1)).
    + destruct Hinv as (h & [= <-] & Hp). rewrite Hp. cbn.
      now rewrite Pos.eqb_refl.
    + now rewrite Hinv.
  - cbn. rewrite Eh. cbn. eexists. split; [reflexivity|].
    unfold pendingHandles. cbn. rewrite map_app. cbn.
    destruct (deletedJob (app w1)); [|now rewrite Hinv].
    destruct Hinv as (h & Hh & _). discriminate Hh.
Qed.

Lemma handleUndoDelete_slot (w : World) :
  slotAgrees w -> slotAgrees (handleUndoDelete w).
Proof.
  intros Hinv. unfold handleUndoDelete.
  destruct (deletedJob (app w)) as [deleted|] eqn:Ed; [|exact Hinv].
  unfold slotAgrees in Hinv. rewrite Ed in Hinv.
  destruct Hinv as (h & Hh & Hp).
  unfold saveJobs, Storage.set. cbn.
  destruct (accepts _ _); cbn; rewrite Hh; unfold slotAgrees, pendingHandles;
    cbn; rewrite handles_filter; unfold pendingHandles in Hp; rewrite Hp; cbn;
    now rewrite Pos.eqb_refl.
Qed.

Lemma fire_slot (h : positive) (w : World) :
  slotAgrees w -> slotAgrees (fire h w).
Proof.
  intros Hinv. unfold fire.
  pose proof (find_timer h (timers w)) as Hfind.
  destruct (Js.find _ _) as [t|]; [|exact Hinv].
  destruct (action t). unfold slotAgrees in *. cbn.
  unfold pendingHandles in *. cbn. rewrite handles_filter.
  destruct (deletedJob (app w)).
  - destruct Hinv as (h0 & _ & Hp). rewrite Hp in *.
    destruct Hfind as [<-|[]]. cbn. now rewrite Pos.eqb_refl.
  - rewrite Hinv in Hfind. destruct Hfind.
Qed.

Lemma run_slot (c : Command) (w : World) : slotAgrees w -> slotAgrees (run c w).
Proof.
  destruct c; cbn [run];
    try (apply slotAgrees_frame;
         first [ apply addJob_undoPart | apply updateJob_undoPart
               | apply importFromCSV_undoPart | apply handleFormSubmit_undoPart
               | reflexivity ]).
  - apply handleConfirmDelete_slot.
  - apply handleUndoDelete_slot.
  - apply fire_slot.
Qed.

(** X14. Through every sequence of commands, timers elapsing included, the undo
    slot and the timers agree: while a deleted record waits there is
    exactly one timer, the one [AppState] remembers, so a second delete
    leaves no earlier timer behind to empty the slot too soon; and no
    timer runs while the slot is empty. *)
Theorem undo_slot_and_timers_agree (cs : list Command) (w : World) :
  slotAgrees w -> slotAgrees (runAll cs w).
Proof.
  unfold runAll. revert w. induction cs as [|c cs IH]; intros w H; [exact H|].
  cbn [fold_left]. apply IH. now apply run_slot.
Qed.

Lemma sound_frame (w w' : World) :
  storePart w' = storePart w -> sound w -> sound w'.
Proof.
  unfold storePart, sound, acceptsAll, inStep, storedJobs.
  intros [= -> -> -> ->]. auto.
Qed.

Lemma addJob_sound (jobData : Data.t) (w : World) :
  acceptsAll w -> sound (fst (addJob jobData w)).
Proof.
  intros Hacc. unfold addJob.
  destruct (createJob_frame w jobData) as (Ha & Hl & _).
  destruct (createJob jobData w) as [w1 j]. cbn [fst snd] in *.
  unfold saveJobs, Storage.set. cbn. rewrite Hl, (Hacc _). cbn.
  unfold sound, acceptsAll, inStep, storedJobs. cbn. auto.
Qed.

Lemma updateJob_sound (jobId : string) (jobData : Data.t) (w : World) :
  sound w -> sound (fst (updateJob jobId jobData w)).
Proof.
  intros [Hacc Hstep]. unfold updateJob.
  destruct (Js.findIndex _ _); [|split; assumption].
  destruct (nth_error _ _); [|split; assumption].
  unfold saveJobs, Storage.set. cbn. rewrite (Hacc _). cbn.
  unfold sound, acceptsAll, inStep, storedJobs. cbn. auto.
Qed.

Lemma deleteJob_sound (jobId : string) (w : World) :
  sound w -> sound (fst (deleteJob jobId w)).
Proof.
  intros [Hacc Hstep]. unfold deleteJob.
  destruct (Js.findIndex _ _); [|split; assumption].
  destruct (Js.splice_out _ _) as [[|x [|y l]] rest]; try (split; assumption).
  unfold saveJobs, Storage.set. cbn. rewrite (Hacc _). cbn.
  unfold sound, acceptsAll, inStep, storedJobs. cbn. auto.
Qed.

Lemma handleConfirmDelete_sound (jobId : option string) (w : World) :
  sound w -> sound (handleConfirmDelete jobId w).
Proof.
  intros H. unfold handleConfirmDelete.
  destruct jobId as [jid|]; [|exact H].
  destruct (Js.truthy jid); [|exact H].
  pose proof (deleteJob_sound jid w H) as H1.
  destruct (deleteJob jid w) as [w1 [deleted|]]; cbn [fst] in H1; [|exact H1].
  apply (sound_frame w1); [|exact H1].
  destruct (deleteTimeout (app w1)) eqn:E; cbn; rewrite E; reflexivity.
Qed.

Lemma handleUndoDelete_sound (w : World) :
  sound w -> sound (handleUndoDelete w).
Proof.
  intros [Hacc Hstep]. unfold handleUndoDelete.
  destruct (deletedJob (app w)); [|split; assumption].
  unfold saveJobs, Storage.set. cbn. rewrite (Hacc _). cbn.
  destruct (deleteTimeout (app w));
    unfold sound, acceptsAll, inStep, storedJobs; cbn; auto.
Qed.

Lemma fire_sound (h : positive) (w : World) : sound w -> sound (fire h w).
Proof.
  intros H. unfold fire. destruct (Js.find _ _) as [t|]; [|exact H].
  destruct (action t). now apply (sound_frame w).
Qed.

Lemma withFilters_sound (f : Filters.t) (w : World) :
  sound w -> sound (applyFilters (withFilters w f)).
Proof.
  intros [Hacc [Hstored _]].
  unfold sound, acceptsAll, inStep, storedJobs in *. cbn. auto.
Qed.

Lemma importLine_sound (line : string) (w : World) (n : nat) :
  sound w -> sound (fst (importLine line (w, n))).
Proof.
  intros H. unfold importLine.
  destruct (negb _); [exact H|].
  destruct (matchFields _); [|exact H].
  destruct (_ <? _)%nat; [exact H|].
  match goal with |- context [addJob ?d w] =>
    pose proof (addJob_sound d w (proj1 H)) as H1;
    destruct (addJob d w) as [w' [j|]]
  end; exact H1.
Qed.

Lemma importFromCSV_sound (text : string) (w : World) :
  sound w -> sound (fst (importFromCSV text w)).
Proof.
  intros H. unfold importFromCSV.
  destruct (Js.split _ _) as [|hd [|l ls]]; try exact H.
  assert (G : forall lines w n, sound w ->
                sound (fst (fold_left (fun st line => importLine line st)
                                      lines (w, n)))).
  { clear. induction lines as [|l ls IH]; intros w n H; [exact H|].
    cbn [fold_left]. pose proof (importLine_sound l w n H) as H1.
    destruct (importLine l (w, n)) as [w1 n1]. now apply IH. }
  specialize (G (l :: ls) w 0 H).
  destruct (fold_left _ _ _) as [w' n]. exact G.
Qed.

Lemma handleFormSubmit_sound (parses : string -> bool) (form : Data.t)
    (w : World) :
  sound w -> sound (handleFormSubmit parses form w).
Proof.
  intros H. unfold handleFormSubmit.
  destruct (missingRequired _); [exact H|].
  destruct (_ && _); [exact H|].
  assert (Hadd : sound match addJob (readForm form) w with
                       | (w1, Some _) => hideJobModal w1
                       | (w1, None) => w1
                       end).
  { pose proof (addJob_sound (readForm form) w (proj1 H)) as H1.
    destruct (addJob _ w) as [w1 [j|]]; [|exact H1].
    now apply (sound_frame w1). }
  destruct (currentEditingJobId (app w)) as [jid|]; [|exact Hadd].
  destruct (Js.truthy jid); [|exact Hadd].
  pose proof (updateJob_sound jid (readForm form) w H) as H1.
  destruct (updateJob jid _ w) as [w1 [|]]; [|exact H1].
  now apply (sound_frame w1).
Qed.

Lemma run_sound (c : Command) (w : World) : sound w -> sound (run c w).
Proof.
  intros H. destruct c; cbn [run].
  - apply addJob_sound, H.
  - now apply updateJob_sound.
  - now apply handleConfirmDelete_sound.
  - now apply handleUndoDelete_sound.
  - now apply fire_sound.
  - now apply withFilters_sound.
  - now apply withFilters_sound.
  - now apply withFilters_sound.
  - now apply withFilters_sound.
  - now apply withFilters_sound.
  - now apply importFromCSV_sound.
  - now apply (sound_frame w).
  - now apply (sound_frame w).
  - now apply handleFormSubmit_sound.
Qed.

Lemma loadJobs_inStep (w : World) : inStep (loadJobs w).
Proof.
  unfold loadJobs, inStep, storedJobs. cbn. auto.
Qed.

(** X15. With a storage that never refuses a write, memory, storage and the
    list shown agree after loading and stay in agreement through every
    sequence of commands: a reload would bring back the collection in
    memory, and the list shown is the filtered and sorted collection. *)
Theorem store_and_view_stay_in_step (cs : list Command) (w : World) :
  acceptsAll w ->
  let w' := runAll cs (loadJobs w) in
  storedJobs w' = jobs (app w')
  /\ jobs (app (loadJobs w')) = jobs (app w')
  /\ filteredJobs (app w') = filterJobs (filters (app w')) (jobs (app w')).
Proof.
  intros Hacc w'.
  assert (H : sound w').
  { subst w'. unfold runAll.
    assert (H0 : sound (loadJobs w)) by (split; [exact Hacc|apply loadJobs_inStep]).
    revert H0. generalize (loadJobs w). clear.
    induction cs as [|c cs IH]; intros w H; [exact H|].
    cbn [fold_left]. apply IH. now apply run_sound. }
  destruct H as [_ [H1 H2]]. repeat split; auto.
Qed.

(* ================================================================== *)
(** ** Analytics: totals and the chart *)
(* ================================================================== *)

Lemma known_counts_one (job : Job) :
  countStatus "Applied" [job] + countStatus "Interview" [job]
  + countStatus "Offer" [job] + countStatus "Rejected" [job]
  + countStatus "Ghosted" [job]
  = if knownStatus job then 1 else 0.
Proof.
  unfold countStatus, knownStatus, knownStatuses. cbn [filter existsb].
  generalize (status job). intros s.
  destruct (String.eqb_spec s "Applied") as [->|N1]; [reflexivity|].
  destruct (String.eqb_spec s "Interview") as [->|N2]; [reflexivity|].
  destruct (String.eqb_spec s "Offer") as [->|N3]; [reflexivity|].
  destruct (String.eqb_spec s "Rejected") as [->|N4]; [reflexivity|].
  destruct (String.eqb_spec s "Ghosted") as [->|N5]; reflexivity.
Qed.

Lemma known_counts (js : list Job) :
  countStatus "Applied" js + countStatus "Interview" js
  + countStatus "Offer" js + countStatus "Rejected" js
  + countStatus "Ghosted" js
  = List.length (filter knownStatus js).
Proof.
  induction js as [|job js IH]; [reflexivity|].
  rewrite !(countStatus_cons _ job js). cbn [filter].
  pose proof (known_counts_one job) as H.
  destruct (knownStatus job); cbn [List.length]; lia.
Qed.

Lemma filter_length_all {A : Type} (p : A -> bool) (l : list A) :
  List.length (filter p l) <= List.length l
  /\ (List.length (filter p l) = List.length l <-> Forall (fun x => p x = true) l).
Proof.
  induction l as [|x l [IH1 IH2]]; [repeat split; auto|].
  cbn [filter]. destruct (p x) eqn:E; cbn [List.length].
  - split; [lia|]. split.
    + intros H. constructor; [exact E|]. apply IH2. lia.
    + intros H. inversion H; subst. f_equal. now apply IH2.
  - split; [lia|]. split; [lia|].
    intros H. inversion H; subst. congruence.
Qed.

(** X17. The five counts of the breakdown add up to the number of records with
    a known status: never more than [total], and [total] exactly when
    every record has one of the five statuses. *)
Theorem breakdown_adds_up (w : World) :
  let total := fst (calculateAnalytics w) in
  let counted := list_sum (Js.values (snd (calculateAnalytics w))) in
  counted = List.length (filter knownStatus (jobs (app w)))
  /\ counted <= total
  /\ (counted = total <-> Forall (fun job => knownStatus job = true) (jobs (app w))).
Proof.
  cbv zeta. rewrite calculateAnalytics_counts. cbn [fst snd].
  unfold Js.values, knownStatuses. cbn [snd map list_sum].
  assert (E : list_sum [countStatus "Applied" (jobs (app w));
                         countStatus "Interview" (jobs (app w));
                         countStatus "Offer" (jobs (app w));
                         countStatus "Rejected" (jobs (app w));
                         countStatus "Ghosted" (jobs (app w))]
              = List.length (filter knownStatus (jobs (app w))))
    by (rewrite <- known_counts; cbn; lia).
  rewrite E. destruct (filter_length_all knownStatus (jobs (app w))) as [H1 H2].
  auto.
Qed.

(** X18. The series handed to the status chart always has five entries, one of
    them positive: the counts when there are any, five ones as a
    placeholder otherwise. *)
Theorem statusChartData_never_blank (w : World) :
  List.length (statusChartData w) = 5
  /\ existsb (fun val => (0 <? val)%nat) (statusChartData w) = true
  /\ (hasData (snd (calculateAnalytics w)) = true ->
      statusChartData w = map (fun s => countStatus s (jobs (app w))) knownStatuses)
  /\ (hasData (snd (calculateAnalytics w)) = false ->
      statusChartData w = [1; 1; 1; 1; 1]).
Proof.
  unfold statusChartData. rewrite calculateAnalytics_counts. cbn [snd].
  destruct (hasData _) eqn:E.
  - split; [reflexivity|]. split; [exact E|]. split; [|discriminate].
    intros _. unfold Js.values. now rewrite map_map.
  - split; [reflexivity|]. split; [reflexivity|]. split; [discriminate|].
    reflexivity.
Qed.

(* ================================================================== *)
(** ** Analytics: what the trend counts *)
(* ================================================================== *)

Lemma prop_assign {V : Type} (o : list (string * V)) (k k' : string) (v : V) :
  Js.prop (Js.assign o k v) k'
  = if String.eqb k k' then Some v else Js.prop o k'.
Proof.
  induction o as [|[k0 v0] o IH]; cbn [Js.assign Js.prop].
  - reflexivity.
  - destruct (String.eqb_spec k0 k) as [->|Hne]; cbn [Js.prop].
    + destruct (String.eqb k k'); reflexivity.
    + rewrite IH. destruct (String.eqb_spec k0 k') as [->|Hne'].
      * destruct (String.eqb_spec k k'); [congruence|reflexivity].
      * reflexivity.
Qed.

Lemma countOf_assign (dm : list (string * nat)) (k k' : string) :
  countOf (Js.assign dm k (countOf dm k + 1)) k'
  = countOf dm k' + (if String.eqb k k' then 1 else 0).
Proof.
  unfold countOf at 1 3. rewrite prop_assign.
  destruct (String.eqb_spec k k') as [->|_]; [reflexivity|].
  destruct (Js.prop dm k'); lia.
Qed.

Lemma countOf_fold (start : Z) (js : list Job) (dm : list (string * nat))
    (key : string) :
  countOf (fold_left (fun dateMap job =>
               let jobDate := Js.parseDate (applicationDate job) in
               if Js.geq jobDate (Some start) then
                 match jobDate with
                 | Some t =>
                     let dateKey := Js.isoDate t in
                     Js.assign dateMap dateKey (countOf dateMap dateKey + 1)
                 | None => dateMap
                 end
               else dateMap) js dm) key
  = countOf dm key
    + List.length (filter (fun job => inWindow start job && keyed key job) js).
Proof.
  revert dm. induction js as [|job js IH]; intros dm; [cbn; lia|].
  cbn [fold_left filter]. rewrite IH. unfold inWindow at 2, keyed at 2.
  destruct (Js.parseDate (applicationDate job)) as [t|]; cbn [Js.geq].
  - destruct (start <=? t)%Z; cbn [andb]; [|lia].
    rewrite countOf_assign.
    destruct (String.eqb (Js.isoDate t) key); cbn [List.length]; lia.
  - cbn [andb]. lia.
Qed.

(** What [calculateTrend] puts in the position of the day [i] days ago. *)
Lemma groupByDate_count (start : Z) (js : list Job) (key : string) :
  countOf (groupByDate start js) key
  = List.length (filter (fun job => inWindow start job && keyed key job) js).
Proof. unfold groupByDate. now rewrite countOf_fold. Qed.




Lemma digit_range (c : ascii) (d : Z) : Js.digit c = Some d -> (0 <= d <= 9)%Z.
Proof.
  unfold Js.digit. destruct (_ && _)%N eqn:E; [|discriminate].
  intros [= <-]. apply andb_prop in E. destruct E as [E1 E2].
  apply N.leb_le in E1, E2. lia.
Qed.

Lemma digits_range (k : nat) (acc v : Z) (s r : string) :
  Js.digits k acc s = Some (v, r) ->
  (acc * 10 ^ Z.of_nat k <= v < (acc + 1) * 10 ^ Z.of_nat k)%Z.
Proof.
  revert acc s. induction k as [|k IH]; intros acc s H.
  - cbn in H. injection H as <- _. cbn. lia.
  - cbn [Js.digits] in H. destruct s as [|c s]; [discriminate|].
    destruct (Js.digit c) as [d|] eqn:Ed; [|discriminate].
    apply digit_range in Ed. apply IH in H.
    rewrite Nat2Z.inj_succ, Z.pow_succ_r by lia.
    assert (0 < 10 ^ Z.of_nat k)%Z by (apply Z.pow_pos_nonneg; lia).
    nia.
Qed.

(** A date that parses is midnight UTC of a day of the years 0 to 9999. *)
Lemma parseDate_range (s : string) (t : Z) :
  Js.parseDate s = Some t ->
  (t mod Js.msPerDay = 0 /\ Z.abs t <= maxTime)%Z.
Proof.
  unfold Js.parseDate.
  destruct (Js.digits 4 0 s) as [[y s1]|] eqn:Ey; [|discriminate].
  destruct (Js.expect _ s1) as [s2|]; [|discriminate].
  destruct (Js.digits 2 0 s2) as [[m s3]|] eqn:Em; [|discriminate].
  destruct (Js.expect _ s3) as [s4|]; [|discriminate].
  destruct (Js.digits 2 0 s4) as [[d [|c s5]]|] eqn:Ed; try discriminate.
  destruct (_ && _)%Z eqn:Hc; [|discriminate].
  intros [= <-].
  apply digits_range in Ey, Em, Ed. cbn in Ey, Em, Ed.
  repeat (apply andb_prop in Hc; let H := fresh "Hc" in destruct Hc as [Hc H]).
  apply Z.leb_le in Hc.
  split; [unfold Js.msPerDay; now rewrite Z.mod_mul|].
  unfold Js.daysFromCivil, Js.msPerDay, maxTime.
  destruct (m <=? 2)%Z, (2 <? m)%Z; div_lia.
Qed.

Lemma isoDate_same_day (a b : Z) : Js.Day a = Js.Day b -> Js.isoDate a = Js.isoDate b.
Proof. unfold Js.isoDate. now intros ->. Qed.

(** X20. Where the offset of local time never changes and every record has
    a valid date, the count in each position of the trend is the number
    of records dated that day: the position of the day [i] days ago
    (thirty positions, [i] from 29 down to 0) holds the number of records
    whose application date is the UTC day of the clock less [i] days. *)
Theorem calculateTrend_counts_by_day (w : World) (c : Z) :
  constantOffset (zone w) c ->
  (Z.abs (now w) <= maxTime)%Z ->
  Forall validDate (jobs (app w)) ->
  snd (calculateTrend w)
  = map (fun i => List.length
                    (filter (fun job =>
                               (Js.Day (timeOf job) =? Js.Day (now w) - Z.of_nat i)%Z)
                            (jobs (app w))))
        (countdown 29).
Proof.
  intros Hzone Hnow Hvalid. unfold calculateTrend. cbn [snd].
  rewrite Forall_forall in Hvalid.
  assert (G : forall n, n <= 29 ->
    map (fun i => countOf (groupByDate (daysAgo w 30) (jobs (app w)))
                          (Js.isoDate (daysAgo w i))) (countdown n)
    = map (fun i => List.length
                      (filter (fun job =>
                                 (Js.Day (timeOf job) =? Js.Day (now w) - Z.of_nat i)%Z)
                              (jobs (app w))))
          (countdown n)); [|now apply G].
  assert (P : forall i, i <= 29 ->
    countOf (groupByDate (daysAgo w 30) (jobs (app w))) (Js.isoDate (daysAgo w i))
    = List.length (filter (fun job =>
                             (Js.Day (timeOf job) =? Js.Day (now w) - Z.of_nat i)%Z)
                          (jobs (app w)))).
  { intros i Hi. rewrite groupByDate_count. f_equal. apply filter_ext_in.
    intros job Hin. specialize (Hvalid job Hin).
    unfold validDate in Hvalid. unfold inWindow, keyed, timeOf.
    rewrite !(daysAgo_constant w c) by exact Hzone.
    destruct (Js.parseDate (applicationDate job)) as [t|] eqn:Et; [|congruence].
    apply parseDate_range in Et. destruct Et as [_ Ht].
    cbn [Js.geq Js.nanToZero].
    assert (Hday : Js.Day (now w - Z.of_nat i * Js.msPerDay)
                   = (Js.Day (now w) - Z.of_nat i)%Z)
      by (unfold Js.Day, Js.msPerDay; div_lia).
    destruct (Z.eqb_spec (Js.Day t) (Js.Day (now w) - Z.of_nat i)) as [E|N].
    - rewrite (isoDate_same_day t (now w - Z.of_nat i * Js.msPerDay))
        by congruence.
      rewrite String.eqb_refl, andb_true_r. apply Z.leb_le.
      unfold Js.Day, Js.msPerDay in *. div_lia.
    - destruct (String.eqb_spec (Js.isoDate t)
                  (Js.isoDate (now w - Z.of_nat i * Js.msPerDay))) as [E|_];
        [|apply andb_false_r].
      exfalso. apply N. rewrite <- Hday. apply isoDate_inj; auto.
      + unfold maxTime in *. lia.
      + unfold Js.msPerDay, maxTime in *. lia. }
  induction n as [|n IH]; intros Hn; cbn [countdown map].
  - now rewrite P by lia.
  - rewrite P by lia. f_equal. apply IH. lia.
Qed.

(* ================================================================== *)
(** ** CSV import: the other paths *)
(* ================================================================== *)

(** X21. A text of one line only (no line feed in it) imports nothing: the
    world is left as it was and the file is reported as empty or
    invalid. *)
Theorem importFromCSV_one_line (text : string) (w : World) :
  every notNewline text = true ->
  importFromCSV text w = (w, EmptyOrInvalid).
Proof.
  intros H. unfold importFromCSV. now rewrite (split_one_line text H).
Qed.

(** X22. The first line is skipped whatever it holds: two texts that differ in
    their first line only import the same. *)
Theorem importFromCSV_skips_first_line (header header' rest : string)
    (w : World) :
  every notNewline header = true ->
  every notNewline header' = true ->
  importFromCSV (header ++ String Js.newline rest) w
  = importFromCSV (header' ++ String Js.newline rest) w.
Proof.
  intros H H'. unfold importFromCSV.
  rewrite (split_first_line header rest H), (split_first_line header' rest H').
  reflexivity.
Qed.

(** What [addJob] reports, and what it leaves of the storage. *)
Lemma addJob_outcome (jobData : Data.t) (w : World) :
  let job := snd (createJob jobData w) in
  let ok := accepts (localStorage w) (job :: jobs (app w)) in
  snd (addJob jobData w) = (if ok then Some job else None)
  /\ accepts (localStorage (fst (addJob jobData w))) = accepts (localStorage w)
  /\ jobsItem (localStorage (fst (addJob jobData w)))
     = (if ok then Some (job :: jobs (app w)) else jobsItem (localStorage w)).
Proof.
  cbv zeta. unfold addJob.
  destruct (createJob_frame w jobData) as (Ha & Hl & _).
  destruct (createJob jobData w) as [w1 j]. cbn [fst snd] in *.
  unfold saveJobs, Storage.set, Js.unshift. cbn. rewrite Ha, Hl.
  destruct (accepts (localStorage w) (j :: jobs (app w))); cbn; auto.
Qed.

Lemma importStep_refl (st : World * nat) : importStep st st.
Proof.
  destruct st as [w n]. cbn. repeat split; auto.
  exists []. repeat split; cbn; lia.
Qed.

Lemma importStep_trans (a b c : World * nat) :
  importStep a b -> importStep b c -> importStep a c.
Proof.
  destruct a as [w n], b as [w1 n1], c as [w2 n2]. cbn.
  intros (Ha & Hn & (l1 & Hl1 & Hc1 & He1) & Hr1)
         (Ha' & Hn' & (l2 & Hl2 & Hc2 & He2) & Hr2).
  assert (Hall : acceptsAll w -> acceptsAll w1)
    by (unfold acceptsAll; intros H v; rewrite Ha; apply H).
  assert (Hnone : refusesAll w -> refusesAll w1)
    by (unfold refusesAll; intros H v; rewrite Ha; apply H).
  split; [congruence|]. split; [lia|]. split.
  - exists (l2 ++ l1). rewrite Hl2, Hl1, app_assoc, length_app.
    split; [reflexivity|]. split; [lia|].
    intros H. specialize (He1 H). specialize (He2 (Hall H)). lia.
  - intros H. destruct (Hr1 H) as [-> E1]. destruct (Hr2 (Hnone H)) as [-> E2].
    split; congruence.
Qed.

Lemma importLine_step (line : string) (st : World * nat) :
  importStep st (importLine line st).
Proof.
  destruct st as [w n]. unfold importLine.
  destruct (negb _); [apply importStep_refl|].
  destruct (matchFields _); [|apply importStep_refl].
  destruct (_ <? _)%nat; [apply importStep_refl|].
  match goal with |- context [addJob ?d w] =>
    pose proof (addJob_outcome d w) as Hout; pose proof (addJob_jobs w d) as Hjobs;
    set (data := d) in *
  end.
  cbv zeta in Hout. destruct Hout as (Hres & Hacc & Hdisk).
  destruct (addJob data w) as [w' r]. cbn [fst snd] in *.
  destruct (accepts (localStorage w) _) eqn:Eok; subst r; cbn [importStep].
  - split; [exact Hacc|]. split; [lia|]. split.
    + eexists [_]. rewrite Hjobs. split; [reflexivity|].
      cbn [List.length]. split; [lia|intros _; lia].
    + intros H. rewrite (H _) in Eok. discriminate.
  - split; [exact Hacc|]. split; [lia|]. split.
    + eexists [_]. rewrite Hjobs. split; [reflexivity|].
      cbn [List.length]. split; [lia|].
      intros H. rewrite (H _) in Eok. discriminate.
    + intros _. split; [reflexivity|exact Hdisk].
Qed.

Lemma importLines_step (lines : list string) (st : World * nat) :
  importStep st (fold_left (fun st line => importLine line st) lines st).
Proof.
  revert st. induction lines as [|l ls IH]; intros st; [apply importStep_refl|].
  cbn [fold_left]. eapply importStep_trans; [apply importLine_step|apply IH].
Qed.

Lemma importFromCSV_step (text : string) (w : World) :
  importStep (w, 0) (fst (importFromCSV text w),
                     reported (snd (importFromCSV text w))).
Proof.
  unfold importFromCSV.
  destruct (Js.split _ _) as [|hd [|l ls]]; try apply (importStep_refl (w, 0)).
  pose proof (importLines_step (l :: ls) (w, 0)) as H.
  destruct (fold_left _ _ _) as [w' n]. cbn [fst snd].
  destruct n; exact H.
Qed.

(** X23. An import only adds: the records it creates go in front of the
    collection, which is otherwise left as it was, and the count it
    reports never exceeds the number of records added. *)
Theorem importFromCSV_only_adds (text : string) (w : World) :
  exists added,
    jobs (app (fst (importFromCSV text w))) = added ++ jobs (app w)
    /\ reported (snd (importFromCSV text w)) <= List.length added.
Proof.
  destruct (importFromCSV_step text w) as (_ & _ & (added & H1 & H2 & _) & _).
  exists added. split; [exact H1|lia].
Qed.

(** X24. When every write goes through, the count an import reports is the
    number of records the collection grew by. *)
Theorem importFromCSV_reports_growth (text : string) (w : World) :
  acceptsAll w ->
  List.length (jobs (app (fst (importFromCSV text w))))
  = reported (snd (importFromCSV text w)) + List.length (jobs (app w)).
Proof.
  intros Hall.
  destruct (importFromCSV_step text w) as (_ & _ & (added & H1 & _ & H3) & _).
  rewrite H1, length_app. specialize (H3 Hall). lia.
Qed.

(** What a refused write leaves of [addJob]: the record in memory, and
    nothing else. *)
Lemma addJob_refused (jobData : Data.t) (w : World) :
  refusesAll w ->
  snd (addJob jobData w) = None
  /\ localStorage (fst (addJob jobData w)) = localStorage w
  /\ filteredJobs (app (fst (addJob jobData w))) = filteredJobs (app w)
  /\ jobs (app (fst (addJob jobData w))) = snd (createJob jobData w) :: jobs (app w).
Proof.
  intros Hnone. unfold addJob.
  destruct (createJob_frame w jobData) as (Ha & Hl & _).
  destruct (createJob jobData w) as [w1 job]. cbn [fst snd] in *.
  unfold saveJobs, Storage.set, Js.unshift. cbn. rewrite ?Ha, Hl.
  rewrite (Hnone _). cbn. rewrite ?Ha, ?Hl. auto.
Qed.

Lemma stored_createJob (jobData : Data.t) (w : World) :
  content (snd (createJob jobData w)) = stored jobData.
Proof. now destruct (createJob_frame w jobData) as (_ & _ & _ & _ & E). Qed.

Lemma importLine_refused (line : string) (w : World) (n : nat) :
  refusesAll w ->
  let w' := fst (importLine line (w, n)) in
  snd (importLine line (w, n)) = n
  /\ localStorage w' = localStorage w
  /\ filteredJobs (app w') = filteredJobs (app w)
  /\ exists added,
       jobs (app w') = added ++ jobs (app w)
       /\ map content added
          = map stored (match lineData line with
                        | Some data => [data]
                        | None => []
                        end).
Proof.
  intros Hnone. cbv zeta. unfold importLine, lineData.
  destruct (negb _); [cbn; repeat split; auto; now exists []|].
  destruct (matchFields _) as [matches|]; [|cbn; repeat split; auto; now exists []].
  destruct (_ <? _)%nat; [cbn; repeat split; auto; now exists []|].
  change (Data.mk (nth 0 (map stripQuotes matches) EmptyString) _ _ _ _ _ _ _)
    with (cellsData (map stripQuotes matches)).
  destruct (addJob_refused (cellsData (map stripQuotes matches)) w Hnone)
    as (Hr & Hl & Hf & Hj).
  destruct (addJob _ w) as [w' r]. cbn [fst snd] in *. subst r. cbn [fst snd].
  repeat split; auto.
  eexists [_]. split; [exact Hj|]. cbn [map]. now rewrite stored_createJob.
Qed.

Lemma importLines_refused (lines : list string) (w : World) (n : nat) :
  refusesAll w ->
  let st := fold_left (fun st line => importLine line st) lines (w, n) in
  snd st = n
  /\ localStorage (fst st) = localStorage w
  /\ filteredJobs (app (fst st)) = filteredJobs (app w)
  /\ exists added,
       jobs (app (fst st)) = added ++ jobs (app w)
       /\ map content added
          = rev (map stored (flat_map (fun line => match lineData line with
                                                   | Some data => [data]
                                                   | None => []
                                                   end) lines)).
Proof.
  revert w. induction lines as [|l ls IH]; intros w Hnone; cbv zeta.
  - cbn. repeat split; auto. now exists [].
  - cbn [fold_left flat_map].
    destruct (importLine_refused l w n Hnone) as (Hn & Hl & Hf & a1 & Hj1 & Hc1).
    destruct (importLine l (w, n)) as [w1 n1]. cbn [fst snd] in *. subst n1.
    assert (Hnone1 : refusesAll w1) by (intros v; rewrite Hl; apply Hnone).
    destruct (IH w1 Hnone1) as (Hn2 & Hl2 & Hf2 & a2 & Hj2 & Hc2).
    split; [exact Hn2|]. split; [congruence|]. split; [congruence|].
    exists (a2 ++ a1). split.
    + rewrite Hj2, Hj1. now rewrite app_assoc.
    + rewrite map_app, Hc2, Hc1, map_app, rev_app_distr. f_equal.
      now destruct (lineData l).
Qed.

(** X25. When no write goes through, an import never reports a count, what
    is persisted and the list shown stay as they were, and yet every
    record read is in the collection in memory: the records made of the
    lines read, the last line first, in front of the collection as it
    was. *)
Theorem importFromCSV_unsaved (text : string) (w : World) :
  refusesAll w ->
  let w' := fst (importFromCSV text w) in
  (forall n, snd (importFromCSV text w) <> Imported n)
  /\ jobsItem (localStorage w') = jobsItem (localStorage w)
  /\ filteredJobs (app w') = filteredJobs (app w)
  /\ exists added,
       jobs (app w') = added ++ jobs (app w)
       /\ map content added = rev (map stored (dataRead text)).
Proof.
  intros Hnone. cbv zeta. unfold importFromCSV, dataRead.
  destruct (Js.split Js.newline text) as [|hd [|l ls]].
  - cbn. repeat split; auto; [discriminate|now exists []].
  - cbn. repeat split; auto; [discriminate|now exists []].
  - destruct (importLines_refused (l :: ls) w 0 Hnone) as (Hn & Hl & Hf & added & Hj & Hc).
    destruct (fold_left _ (l :: ls) (w, 0)) as [w' k]. cbn [fst snd] in *. subst k.
    cbn [Nat.ltb Nat.leb]. repeat split; auto; [discriminate|congruence|].
    exists added. split; [exact Hj|exact Hc].
Qed.

Lemma isBare_facts (c : ascii) :
  isBare c = true ->
  Ascii.eqb c Js.quote = false /\ Ascii.eqb c Js.comma = false
  /\ Js.isWhiteSpace c = false.
Proof.
  unfold isBare. intros H. apply negb_true_iff in H.
  apply orb_false_elim in H. destruct H as [H H3].
  apply orb_false_elim in H. destruct H as [H1 H2]. auto.
Qed.

Lemma greedyBare_eq (c : ascii) (s : string) :
  greedyBare (String c s)
  = if isBare c then
      match greedyBare s with
      | Some m => Some (String c m)
      | None => if lookahead s then Some (String c EmptyString) else None
      end
    else None.
Proof. reflexivity. Qed.

Lemma greedyBare_cell (c : ascii) (cell rest : string) :
  every isBare (String c cell) = true ->
  rest = EmptyString \/ (exists r, rest = String Js.comma r) ->
  greedyBare (String c (cell ++ rest)) = Some (String c cell).
Proof.
  intros Hcell Hrest. revert c Hcell. induction cell as [|d cell IH]; intros c Hcell.
  - cbn [every] in Hcell. apply andb_prop in Hcell. destruct Hcell as [Hc _].
    cbn [append]. rewrite greedyBare_eq, Hc.
    destruct Hrest as [->|[r ->]]; reflexivity.
  - cbn [every] in Hcell. apply andb_prop in Hcell. destruct Hcell as [Hc Hd].
    cbn [append]. rewrite greedyBare_eq, Hc, (IH d) by exact Hd. reflexivity.
Qed.

Lemma scanFields_cell (cell rest : string) :
  bareCell cell = true ->
  rest = EmptyString \/ (exists r, rest = String Js.comma r) ->
  scanFields 0 (cell ++ rest) = cell :: scanFields 0 rest.
Proof.
  unfold bareCell. intros H Hrest. apply andb_prop in H. destruct H as [Hne Hbare].
  destruct cell as [|c cell]; [discriminate|].
  pose proof (greedyBare_cell c cell rest Hbare Hrest) as Hg.
  cbn [every] in Hbare. apply andb_prop in Hbare. destruct Hbare as [Hc _].
  destruct (isBare_facts c Hc) as (Hq & _).
  cbn [append] in *. cbn [scanFields]. unfold matchField. rewrite Hq, Hg.
  f_equal.
  replace (String.length (String c cell) - 1) with (String.length cell + 0)
    by (cbn [String.length]; lia).
  apply scanFields_skip.
Qed.

Lemma scanFields_bare_row (cells : list string) :
  Forall (fun cell => bareCell cell = true) cells ->
  scanFields 0 (Js.join "," cells) = cells.
Proof.
  induction 1 as [|cell cells Hcell Hcells IH]; [reflexivity|].
  destruct cells as [|cell' cells].
  - cbn [Js.join]. rewrite <- (append_nil_r cell) at 1.
    rewrite scanFields_cell; auto.
  - change (Js.join "," (cell :: cell' :: cells))
      with (cell ++ String Js.comma (Js.join "," (cell' :: cells)))%string.
    rewrite scanFields_cell; eauto.
    change (scanFields 0 (String Js.comma (Js.join "," (cell' :: cells))))
      with (scanFields 0 (Js.join "," (cell' :: cells))).
    now rewrite IH.
Qed.

Lemma endsWithQuote_bare (s : string) :
  every isBare s = true -> endsWithQuote s = false.
Proof.
  induction s as [|c s IH]; [reflexivity|].
  cbn [every]. intros H. apply andb_prop in H. destruct H as [Hc Hs].
  destruct (isBare_facts c Hc) as (Hq & _).
  destruct s as [|d s]; [exact Hq|]. exact (IH Hs).
Qed.

Lemma stripQuotes_bare (cell : string) :
  every isBare cell = true -> stripQuotes cell = cell.
Proof.
  intros H. unfold stripQuotes. destruct cell as [|c cell]; [reflexivity|].
  pose proof (endsWithQuote_bare _ H) as He.
  cbn [every] in H. apply andb_prop in H. destruct H as [Hc _].
  destruct (isBare_facts c Hc) as (Hq & _). now rewrite Hq, He.
Qed.

Lemma trim_notSpace (s : string) : every notSpace s = true -> Js.trim s = s.
Proof.
  intros H. unfold Js.trim.
  assert (Hs : Js.trimStart s = s).
  { destruct s as [|c s]; [reflexivity|]. cbn [every] in H.
    apply andb_prop in H. destruct H as [Hc _].
    unfold notSpace in Hc. apply negb_true_iff in Hc. cbn. now rewrite Hc. }
  rewrite Hs. clear Hs. induction s as [|c s IH]; [reflexivity|].
  cbn [every] in H. apply andb_prop in H. destruct H as [Hc Hs].
  unfold notSpace in Hc. apply negb_true_iff in Hc.
  cbn [Js.trimEnd]. rewrite (IH Hs), Hc. destruct s; reflexivity.
Qed.

Lemma bare_row_notSpace (cells : list string) :
  Forall (fun cell => bareCell cell = true) cells ->
  every notSpace (Js.join "," cells) = true.
Proof.
  assert (Hcell : forall cell, bareCell cell = true -> every notSpace cell = true).
  { intros cell H. unfold bareCell in H. apply andb_prop in H.
    destruct H as [_ H]. apply (every_impl isBare notSpace); [|exact H].
    intros c Hc. unfold notSpace. destruct (isBare_facts c Hc) as (_ & _ & ->).
    reflexivity. }
  induction 1 as [|cell cells Hc Hcs IH]; [reflexivity|].
  destruct cells as [|cell' cells]; [now apply Hcell|].
  change (Js.join "," (cell :: cell' :: cells))
    with (cell ++ String Js.comma (Js.join "," (cell' :: cells)))%string.
  rewrite every_append. cbn [every]. now rewrite (Hcell cell Hc), IH.
Qed.

(** X26. A line of six or more cells written without quotes (each cell not
    empty and free of quotes, commas and white space) is read cell by
    cell: the importer makes one [addJob] with the cells as company, role,
    type, location, date, status, link and notes, in this order. *)
Theorem importLine_bare_cells (cells : list string) (w : World) (n : nat) :
  Forall (fun cell => bareCell cell = true) cells ->
  6 <= List.length cells ->
  matchFields (Js.join "," cells) = Some cells
  /\ fst (importLine (Js.join "," cells) (w, n)) = fst (addJob (cellsData cells) w).
Proof.
  intros Hcells Hlen.
  assert (Hm : matchFields (Js.join "," cells) = Some cells).
  { unfold matchFields. rewrite (scanFields_bare_row cells Hcells).
    destruct cells; [cbn in Hlen; lia|reflexivity]. }
  split; [exact Hm|].
  assert (Hstrip : map stripQuotes cells = cells).
  { clear Hlen Hm. induction Hcells as [|cell cells Hc _ IH]; [reflexivity|].
    cbn [map]. rewrite IH. f_equal. apply stripQuotes_bare.
    unfold bareCell in Hc. now apply andb_prop in Hc. }
  unfold importLine.
  rewrite (trim_notSpace _ (bare_row_notSpace cells Hcells)), Hm.
  assert (Ht : Js.truthy (Js.join "," cells) = true).
  { destruct Hcells as [|cell cells Hc _]; [cbn in Hlen; lia|].
    unfold bareCell in Hc. apply andb_prop in Hc. destruct Hc as [Hc _].
    destruct cell; [discriminate|]. destruct cells; reflexivity. }
  rewrite Ht. cbn [negb].
  destruct (Nat.ltb_spec (List.length cells) 6) as [Hlt|_]; [lia|].
  rewrite Hstrip. cbv zeta. fold (cellsData cells).
  destruct (addJob (cellsData cells) w) as [w' [j|]]; reflexivity.
Qed.

(* ================================================================== *)
(** ** The job form *)
(* ================================================================== *)

Lemma trim_blank (s : string) : blank s = true -> Js.trim s = EmptyString.
Proof.
  unfold blank, Js.trim. intros H.
  assert (E : Js.trimStart s = EmptyString).
  { induction s as [|c s IH]; [reflexivity|]. cbn [every] in H.
    apply andb_prop in H. destruct H as [Hc Hs]. cbn. rewrite Hc. auto. }
  now rewrite E.
Qed.

(** X27. A form with a blank company or role (white space only), an empty
    type, location, date or status, or a link that is not a URL changes
    nothing, whether a record is being edited or added. *)
Theorem handleFormSubmit_turned_down (parses : string -> bool) (form : Data.t)
    (w : World) :
  turnedDown parses form -> handleFormSubmit parses form w = w.
Proof.
  unfold turnedDown, handleFormSubmit, missingRequired, readForm. cbn.
  intros [H|[H|[H|[H|[H|[H|[H1 H2]]]]]]].
  - now rewrite (trim_blank _ H).
  - rewrite (trim_blank _ H). cbn. now rewrite orb_true_r.
  - rewrite H. cbn. now rewrite !orb_true_r.
  - rewrite H. cbn. now rewrite !orb_true_r.
  - rewrite H. cbn. now rewrite !orb_true_r.
  - rewrite H. cbn. now rewrite !orb_true_r.
  - destruct (_ || _); [reflexivity|].
    unfold validateURL. now rewrite H1, H2.
Qed.

Lemma updateJob_ids (jobId : string) (jobData : Data.t) (w : World) :
  ids (fst (updateJob jobId jobData w)) = ids w.
Proof.
  destruct (in_dec string_dec jobId (ids w)) as [Hin|Hout].
  - destruct (updateJob_found w jobId jobData Hin)
      as (i & old & _ & Hn & _ & Hjs & _).
    unfold ids. rewrite Hjs. now apply setAt_map with (y := old).
  - unfold updateJob. now rewrite (absent_findIndex jobId _ Hout).
Qed.

(** X28. While a record is being edited, submitting the form never adds or
    removes a record and never changes an id, whatever the form holds; if
    the record edited is no longer in the collection, the submission
    changes nothing at all. *)
Theorem handleFormSubmit_while_editing (parses : string -> bool)
    (form : Data.t) (w : World) (jobId : string) :
  currentEditingJobId (app w) = Some jobId ->
  Js.truthy jobId = true ->
  ids (handleFormSubmit parses form w) = ids w
  /\ (~ In jobId (ids w) -> handleFormSubmit parses form w = w).
Proof.
  intros He Ht. unfold handleFormSubmit. rewrite He, Ht.
  destruct (missingRequired _); [split; reflexivity|].
  destruct (_ && _); [split; reflexivity|].
  split.
  - pose proof (updateJob_ids jobId (readForm form) w) as H.
    destruct (updateJob jobId _ w) as [w1 [|]]; exact H.
  - intros Hout. unfold updateJob. now rewrite (absent_findIndex jobId _ Hout).
Qed.

(** X29. With no record being edited, a form that passes the checks adds one
    record in front when the write goes through: its company, role and
    notes are the values of the form trimmed and then sanitized, its link
    the value trimmed, the other fields as they are; the dialog state
    stays closed. *)
Theorem handleFormSubmit_adds (parses : string -> bool) (form : Data.t)
    (w : World) :
  currentEditingJobId (app w) = None ->
  missingRequired (readForm form) = false ->
  validateURL parses (Js.trim (Data.jobLink form)) = true ->
  acceptsAll w ->
  let w' := handleFormSubmit parses form w in
  exists job,
    jobs (app w') = job :: jobs (app w)
    /\ content job
       = Data.mk (sanitizeInput (Js.trim (Data.company form)))
                 (sanitizeInput (Js.trim (Data.role form)))
                 (Data.jobType form) (Data.location form)
                 (Data.applicationDate form) (Data.status form)
                 (Js.trim (Data.jobLink form))
                 (sanitizeInput (Js.trim (Data.notes form)))
    /\ id job = snd (generateUUID w)
    /\ currentEditingJobId (app w') = None
    /\ jobsItem (localStorage w') = Some (jobs (app w')).
Proof.
  intros He Hreq Hurl Hacc w'. subst w'. unfold handleFormSubmit.
  rewrite He, Hreq. cbn [readForm Data.jobLink]. rewrite Hurl.
  rewrite andb_false_r.
  pose proof (addJob_outcome (readForm form) w) as Hout.
  pose proof (addJob_jobs w (readForm form)) as Hjobs.
  destruct (createJob_frame w (readForm form)) as (_ & _ & _ & Hid & Hcontent).
  cbv zeta in Hout. rewrite (Hacc _) in Hout. destruct Hout as (Hres & _ & Hdisk).
  fold (readForm form).
  destruct (addJob (readForm form) w) as [w1 r]. cbn [fst snd] in *. subst r.
  exists (snd (createJob (readForm form) w)).
  change (jobs (app (hideJobModal w1))) with (jobs (app w1)).
  change (localStorage (hideJobModal w1)) with (localStorage w1).
  rewrite Hjobs, Hdisk, Hcontent, Hid.
  split; [reflexivity|]. split; [|auto].
  cbn [readForm Data.company Data.role Data.jobType Data.location
       Data.applicationDate Data.status Data.jobLink Data.notes].
  now rewrite !orEmpty_id.
Qed.

(* ================================================================== *)
(** ** The statements above on sample worlds *)
(* ================================================================== *)

Lemma addJob_saved_witness :
  let job := snd (createJob Sample.acme Sample.stocked) in
  let w' := fst (addJob Sample.acme Sample.stocked) in
  snd (addJob Sample.acme Sample.stocked) = Some job
  /\ jobs (app w') = job :: jobs (app Sample.stocked)
  /\ jobsItem (localStorage w') = Some (jobs (app w'))
  /\ filteredJobs (app w') = filterJobs (filters (app Sample.stocked)) (jobs (app w'))
  /\ getJobById (id job) w' = Some job.
Proof. apply (addJob_saved Sample.stocked Sample.acme). reflexivity. Defined.

Lemma updateJob_in_place_witness :
  let js' := jobs (app (fst (updateJob "b" Sample.google Sample.stocked))) in
  map id js' = map id (jobs (app Sample.stocked))
  /\ map createdAt js' = map createdAt (jobs (app Sample.stocked))
  /\ List.length js' = List.length (jobs (app Sample.stocked))
  /\ exists index old,
       Js.findIndex (fun job => String.eqb (id job) "b") (jobs (app Sample.stocked))
       = Some index
       /\ nth_error (jobs (app Sample.stocked)) index = Some old
       /\ nth_error js' index = Some (updated old Sample.google)
       /\ forall k, k <> index ->
                    nth_error js' k = nth_error (jobs (app Sample.stocked)) k.
Proof.
  apply (updateJob_in_place Sample.stocked "b" Sample.google). simpl. auto.
Defined.


Lemma deleteJob_not_found_witness :
  deleteJob "zz" Sample.stocked = (Sample.stocked, None).
Proof.
  apply (deleteJob_not_found Sample.stocked "zz").
  simpl. intros [H|[H|[H|[]]]]; discriminate H.
Defined.

Lemma deleteJob_removes_witness :
  let w' := fst (deleteJob "b" Sample.stocked) in
  (exists removed, snd (deleteJob "b" Sample.stocked) = Some removed
                   /\ id removed = "b" /\ In removed (jobs (app Sample.stocked)))
  /\ ~ In "b" (ids w')
  /\ S (List.length (jobs (app w'))) = List.length (jobs (app Sample.stocked))
  /\ (forall job, In job (jobs (app Sample.stocked)) -> id job <> "b" ->
                  In job (jobs (app w')))
  /\ jobsItem (localStorage w') = Some (jobs (app w')).
Proof.
  apply (deleteJob_removes Sample.stocked "b").
  - simpl. repeat constructor; simpl; intuition discriminate.
  - simpl. auto.
  - reflexivity.
Defined.

Lemma ids_stay_distinct_witness :
  ids (fst (updateJob "b" Sample.google Sample.stocked)) = ids Sample.stocked
  /\ NoDup (ids (fst (updateJob "b" Sample.google Sample.stocked)))
  /\ NoDup (ids (fst (deleteJob "b" Sample.stocked)))
  /\ incl (ids (fst (deleteJob "b" Sample.stocked))) (ids Sample.stocked).
Proof.
  apply (ids_stay_distinct Sample.stocked "b" Sample.google).
  simpl. repeat constructor; simpl; intuition discriminate.
Defined.

Lemma reload_after_success_witness :
  let w' := fst (mutate (MDelete "b") Sample.stocked) in
  jobsItem (localStorage w') = Some (jobs (app w'))
  /\ jobs (app (loadJobs w')) = jobs (app w')
  /\ filteredJobs (app (loadJobs w')) = filteredJobs (app w').
Proof. apply (reload_after_success (MDelete "b") Sample.stocked). reflexivity. Defined.

Lemma applyFilters_oldest_witness :
  let shown := filteredJobs (app (applyFilters Case.oldestFirst)) in
  StronglySorted (fun a b => (timeOf a <= timeOf b)%Z) shown
  /\ (forall t, filter (fun job => timeOf job =? t)%Z shown
                = filter (fun job => timeOf job =? t)%Z
                         (filter (matches (filters (app Case.oldestFirst)))
                                 (jobs (app Case.oldestFirst)))).
Proof.
  apply (applyFilters_oldest Case.oldestFirst).
  - vm_compute. discriminate.
  - repeat constructor; vm_compute; discriminate.
Defined.

Lemma search_ignores_case_witness :
  filterJobs (searching Filters.initial "ACME") Sample.three
  = filterJobs (searching Filters.initial "acme") Sample.three.
Proof.
  apply (search_ignores_case Filters.initial "ACME" "acme" Sample.three).
  reflexivity.
Defined.

Lemma undo_slot_and_timers_agree_witness :
  slotAgrees (runAll Case.session Sample.stocked).
Proof.
  apply (undo_slot_and_timers_agree Case.session Sample.stocked). reflexivity.
Defined.

Lemma store_and_view_stay_in_step_witness :
  let w' := runAll Case.session (loadJobs Sample.stocked) in
  storedJobs w' = jobs (app w')
  /\ jobs (app (loadJobs w')) = jobs (app w')
  /\ filteredJobs (app w') = filterJobs (filters (app w')) (jobs (app w')).
Proof.
  apply (store_and_view_stay_in_step Case.session Sample.stocked).
  intros value. reflexivity.
Defined.

Lemma undo_after_timeout_witness :
  undoState (fire 1 Sample.pending) = Idle
  /\ jobs (app (fire 1 Sample.pending)) = jobs (app Sample.pending)
  /\ handleUndoDelete (fire 1 Sample.pending) = fire 1 Sample.pending.
Proof. apply (undo_after_timeout Sample.pending 1). simpl. auto. Defined.


Lemma calculateTrend_counts_by_day_witness :
  snd (calculateTrend Sample.stocked)
  = map (fun i => List.length
                    (filter (fun job =>
                               (Js.Day (timeOf job)
                                =? Js.Day (now Sample.stocked) - Z.of_nat i)%Z)
                            (jobs (app Sample.stocked))))
        (countdown 29).
Proof.
  apply (calculateTrend_counts_by_day Sample.stocked 0).
  - intros x. split; reflexivity.
  - vm_compute. discriminate.
  - repeat constructor; vm_compute; discriminate.
Defined.

Lemma importFromCSV_one_line_witness :
  importFromCSV "Company,Role" Sample.stocked = (Sample.stocked, EmptyOrInvalid).
Proof. apply (importFromCSV_one_line "Company,Role" Sample.stocked). reflexivity. Defined.

Lemma importFromCSV_skips_first_line_witness :
  importFromCSV ("Company,Role" ++ String Js.newline "Acme,Tester,Contract,Onsite,2026-01-20,Offer")
                Sample.fresh
  = importFromCSV ("Acme,Boss,Contract,Remote,2026-01-01,Offer"
                   ++ String Js.newline "Acme,Tester,Contract,Onsite,2026-01-20,Offer")
                  Sample.fresh.
Proof.
  apply (importFromCSV_skips_first_line "Company,Role"
           "Acme,Boss,Contract,Remote,2026-01-01,Offer"
           "Acme,Tester,Contract,Onsite,2026-01-20,Offer" Sample.fresh);
    reflexivity.
Defined.

Lemma importFromCSV_reports_growth_witness :
  List.length (jobs (app (fst (importFromCSV Case.bareFile Sample.stocked))))
  = reported (snd (importFromCSV Case.bareFile Sample.stocked))
    + List.length (jobs (app Sample.stocked)).
Proof.
  apply (importFromCSV_reports_growth Case.bareFile Sample.stocked).
  intros value. reflexivity.
Defined.

Lemma importFromCSV_unsaved_witness :
  let w' := fst (importFromCSV Case.bareFile Sample.full) in
  (forall n, snd (importFromCSV Case.bareFile Sample.full) <> Imported n)
  /\ jobsItem (localStorage w') = jobsItem (localStorage Sample.full)
  /\ filteredJobs (app w') = filteredJobs (app Sample.full)
  /\ exists added,
       jobs (app w') = added ++ jobs (app Sample.full)
       /\ map content added = rev (map stored (dataRead Case.bareFile)).
Proof.
  apply (importFromCSV_unsaved Case.bareFile Sample.full).
  intros value. reflexivity.
Defined.

Lemma importLine_bare_cells_witness :
  matchFields (Js.join "," Case.bareCells) = Some Case.bareCells
  /\ fst (importLine (Js.join "," Case.bareCells) (Sample.fresh, 0))
     = fst (addJob (cellsData Case.bareCells) Sample.fresh).
Proof.
  apply (importLine_bare_cells Case.bareCells Sample.fresh 0).
  - repeat constructor.
  - simpl. lia.
Defined.

Lemma handleFormSubmit_turned_down_witness :
  handleFormSubmit Case.anyURL Case.blankCompany Sample.stocked = Sample.stocked.
Proof.
  apply (handleFormSubmit_turned_down Case.anyURL Case.blankCompany Sample.stocked).
  left. reflexivity.
Defined.

Lemma handleFormSubmit_while_editing_witness :
  ids (handleFormSubmit Case.anyURL Case.padded Case.editing) = ids Case.editing
  /\ (~ In "b" (ids Case.editing) ->
      handleFormSubmit Case.anyURL Case.padded Case.editing = Case.editing).
Proof.
  apply (handleFormSubmit_while_editing Case.anyURL Case.padded Case.editing "b");
    reflexivity.
Defined.

Lemma handleFormSubmit_adds_witness :
  let w' := handleFormSubmit Case.anyURL Case.padded Sample.stocked in
  exists job,
    jobs (app w') = job :: jobs (app Sample.stocked)
    /\ content job
       = Data.mk (sanitizeInput (Js.trim (Data.company Case.padded)))
                 (sanitizeInput (Js.trim (Data.role Case.padded)))
                 (Data.jobType Case.padded) (Data.location Case.padded)
                 (Data.applicationDate Case.padded) (Data.status Case.padded)
                 (Js.trim (Data.jobLink Case.padded))
                 (sanitizeInput (Js.trim (Data.notes Case.padded)))
    /\ id job = snd (generateUUID Sample.stocked)
    /\ currentEditingJobId (app w') = None
    /\ jobsItem (localStorage w') = Some (jobs (app w')).
Proof.
  apply (handleFormSubmit_adds Case.anyURL Case.padded Sample.stocked).
  - reflexivity.
  - reflexivity.
  - reflexivity.
  - intros value. reflexivity.
Defined.

(* ================================================================== *)
(** ** CSV export: the lines of the file *)
(* ================================================================== *)

Lemma rowText_oneLine (cells : list string) :
  Forall (fun cell => every notNewline cell = true) cells ->
  every notNewline (rowText cells) = true.
Proof.
  assert (Hq : forall f, every notNewline f = true ->
                         every notNewline (quoted f) = true).
  { intros f H. unfold quoted. cbn [append every].
    rewrite every_append, H. reflexivity. }
  induction 1 as [|f fs Hf Hfs IH]; [reflexivity|].
  destruct fs as [|g fs].
  - unfold rowText. cbn [map Js.join]. now apply Hq.
  - rewrite rowText_cons, every_append. cbn [every].
    now rewrite (Hq f Hf), IH.
Qed.

(** X30. From a collection that is not empty and has no line feed in any
    field, [exportToCSV] writes the header line and then one line a
    record, in the order of the collection, each line the eight cells of
    the record between quotes with commas between them. *)
Theorem exportToCSV_lines (w : World) :
  jobs (app w) <> [] ->
  Forall oneLine (jobs (app w)) ->
  exists text,
    exportToCSV w = Some text
    /\ Js.split Js.newline text
       = "Company,Role,Job Type,Location,Application Date,Status,Job Link,Notes"
         :: map (fun job => rowText (csvRow job)) (jobs (app w))
    /\ List.length (Js.split Js.newline text) = S (List.length (jobs (app w))).
Proof.
  intros Hne Hone. unfold exportToCSV.
  destruct (jobs (app w)) as [|job js] eqn:E; [congruence|].
  exists (csvContent (job :: js)). split; [reflexivity|].
  assert (Hs : Js.split Js.newline (csvContent (job :: js))
               = Js.join "," csvHeaders
                 :: map (fun job => rowText (csvRow job)) (job :: js)).
  { unfold csvContent. rewrite map_map.
    apply split_join_lines; [discriminate|].
    constructor; [reflexivity|].
    apply Forall_map. eapply Forall_impl; [|exact Hone].
    intros j Hj. now apply rowText_oneLine. }
  rewrite Hs. split; [reflexivity|].
  cbn [List.length]. now rewrite length_map.
Qed.

Lemma exportToCSV_lines_witness :
  exists text,
    exportToCSV Sample.stocked = Some text
    /\ Js.split Js.newline text
       = "Company,Role,Job Type,Location,Application Date,Status,Job Link,Notes"
         :: map (fun job => rowText (csvRow job)) (jobs (app Sample.stocked))
    /\ List.length (Js.split Js.newline text)
       = S (List.length (jobs (app Sample.stocked))).
Proof.
  apply (exportToCSV_lines Sample.stocked).
  - discriminate.
  - repeat constructor.
Defined.
